(** * The blog application's store slices: posts and comments

    A shallow embedding of the two Redux Toolkit slices of the blog
    application ([app/blogSlice] and [app/commentsSlice]): their state
    records, the payload creators of their asynchronous thunks and their
    reducers, followed by the properties of the caches they maintain.

    The payload creators talk to a hosted backend through the Supabase
    client.  They are embedded as finite interaction trees over the calls
    the client offers; a backend is any handler answering those calls. *)

From stdpp Require Import gmap strings list fin_maps pretty.
From Stdlib Require Import ZArith Ascii.

Local Open Scope string_scope.
Local Open Scope list_scope.
Local Open Scope Z_scope.

(** ** JavaScript values the slices rely on *)

(** [if (s)] on a string: the empty string is the only falsy one. *)
Definition truthy (s : string) : bool := negb (String.eqb s "").

(** [if (o)] on a [string | null | undefined]. *)
Definition truthy_opt (o : option string) : bool :=
  match o with
  | Some s => truthy s
  | None => false
  end.

(** [s.split(".").pop()]: the segment after the last dot, the whole string
    when it has none.  [seg] is the segment read so far. *)
Fixpoint split_pop (seg s : string) : string :=
  match s with
  | EmptyString => seg
  | String c rest =>
      if Ascii.eqb c "."%char then split_pop "" rest
      else split_pop (seg +:+ String c "") rest
  end.

(** [s.substring(n)]. *)
Fixpoint substring_from (n : nat) (s : string) : string :=
  match n, s with
  | O, _ => s
  | S n', String _ rest => substring_from n' rest
  | S _, EmptyString => ""
  end.

(** The browser's [File]: the slices read its name only. *)
Record File := { name : string; bytes : list Byte.byte }.

(** The request status shared by both slices. *)
Inductive Status := idle | loading | succeeded | failed.

Module Auth.
(** Modelled from the spec: the auth slice ([features/auth/authSlice]) is
    not part of the sources at hand; the session it holds is
    [{ id, email }] or absent. *)
Record User := { id : string; email : string }.
End Auth.

(** ** The Supabase client *)

Module Supabase.

(** The [{ data, error }] reply of a table query; [error] carries
    [error.message] when the reply has an error object. *)
Record Reply (A : Type) := { data : option A; error : option string }.
Arguments data {A} _.
Arguments error {A} _.

(** The [{ count, error }] reply of a head-only count query. *)
Record CountReply := { count : option Z; count_error : option string }.

(** The calls the slices make, indexed by the type of what they answer.
    [Row] is the row type of the table, [Ins] and [Upd] the objects passed to
    [insert] and [update]. *)
Inductive supabaseE {Row Ins Upd : Type} : Type -> Type :=
| DateNow : supabaseE N
| MathRandomToString36 : supabaseE string
| DateToISOString : supabaseE string
| StorageUpload (bucket path : string) (file : File) : supabaseE (option string)
| StorageRemove (bucket : string) (paths : list string) : supabaseE unit
| TableSelect (table : string) (eq : option (string * string)) (order : string)
  : supabaseE (Reply (list Row))
| TableInsert (table : string) (rows : list Ins) : supabaseE (Reply Row)
| TableUpdate (table : string) (patch : Upd) (eq : string * string)
  : supabaseE (Reply Row)
| TableDelete (table : string) (eq : string * string) : supabaseE (option string)
| TableCount (table : string) (eq : string * string) : supabaseE CountReply.
Arguments supabaseE : clear implicits.

End Supabase.
Import Supabase.

(** How a payload creator ends: it returns a value, returns
    [rejectWithValue(msg)], or throws an error with the given message. *)
Inductive Completion (A : Type) :=
| Return (a : A)
| RejectWithValue (msg : string)
| Throw (message : string).
Arguments Return {A} _.
Arguments RejectWithValue {A} _.
Arguments Throw {A} _.

(** What [createAsyncThunk] dispatches when the payload creator has ended:
    [fulfilled] with the returned value, or [rejected] whose payload is the
    value given to [rejectWithValue] and is undefined after a throw. *)
Inductive Settled (A : Type) :=
| Fulfilled (payload : A)
| Rejected (payload : option string).
Arguments Fulfilled {A} _.
Arguments Rejected {A} _.

Definition settle {A} (c : Completion A) : Settled A :=
  match c with
  | Return a => Fulfilled a
  | RejectWithValue msg => Rejected (Some msg)
  | Throw _ => Rejected None
  end.

Section Thunk.
Context {E : Type -> Type}.

(** An asynchronous function: it ends with a result or awaits a call and
    goes on with the answer. *)
Inductive thunk (R : Type) : Type :=
| Ret (r : R)
| Vis {X : Type} (e : E X) (k : X -> thunk R).
Arguments Ret {R} _.
Arguments Vis {R X} _ _.

Definition await {X} (e : E X) : thunk X := Vis e Ret.

Fixpoint bind {A B} (t : thunk A) (f : A -> thunk B) : thunk B :=
  match t with
  | Ret a => f a
  | Vis e k => Vis e (fun x => bind (k x) f)
  end.

(** Sequencing of statements that may return early or throw: what follows
    runs only after a normal completion. *)
Definition andThen {A B} (t : thunk (Completion A))
    (f : A -> thunk (Completion B)) : thunk (Completion B) :=
  bind t (fun c =>
    match c with
    | Return a => f a
    | RejectWithValue msg => Ret (RejectWithValue msg)
    | Throw m => Ret (Throw m)
    end).

(** [try { t } catch (err) { handler(err.message) }]. *)
Definition tryCatch {A} (t : thunk (Completion A))
    (handler : string -> thunk (Completion A)) : thunk (Completion A) :=
  bind t (fun c =>
    match c with
    | Throw m => handler m
    | _ => Ret c
    end).

(** A call together with its answer, as kept in a log. *)
Definition exchange : Type := { X : Type & (E X * X)%type }.

(** A backend: it answers every call and moves to its next state. *)
Definition handler (W : Type) : Type := forall X, E X -> W -> X * W.

(** Running a thunk against a backend yields its result, the backend's
    final state and the calls made with their answers, in order. *)
Fixpoint run {W R} (h : handler W) (t : thunk R) (w : W)
    : R * W * list exchange :=
  match t with
  | Ret r => (r, w, [])
  | Vis e k =>
      let '(x, w') := h _ e w in
      let '(r, w'', log) := run h (k x) w' in
      (r, w'', existT _ (e, x) :: log)
  end.
End Thunk.
Arguments thunk : clear implicits.
Arguments exchange : clear implicits.
Arguments handler : clear implicits.
Arguments Ret {E R} _.
Arguments Vis {E R X} _ _.

Notation "'let*' x ':=' t 'in' k" := (bind t (fun x => k))
  (at level 10, x name, t at level 100, k at level 200).
Notation "'let?' x ':=' t 'in' k" := (andThen t (fun x => k))
  (at level 10, x name, t at level 100, k at level 200).

(** ** Reading a log of exchanges *)

Section Log.
Context {Row Ins Upd : Type}.
Local Abbreviation E := (supabaseE Row Ins Upd).

(** The key and the error message of a blob upload, [None] for any other
    exchange. *)
Definition upload_of (x : exchange E) : option (string * option string) :=
  match x with
  | existT _ (e, r) =>
      match e in supabaseE _ _ _ X return X -> _ with
      | StorageUpload _ path _ => fun uploadError => Some (path, uploadError)
      | _ => fun _ => None
      end r
  end.

(** The rows of an insert. *)
Definition insert_of (x : exchange E) : option (string * list Ins) :=
  match fst (projT2 x) with
  | TableInsert table rows => Some (table, rows)
  | _ => None
  end.

(** The patch of an update and the row the backend answered with. *)
Definition update_of (x : exchange E) : option (Upd * Reply Row) :=
  match x with
  | existT _ (e, r) =>
      match e in supabaseE _ _ _ X return X -> _ with
      | TableUpdate _ patch _ => fun r => Some (patch, r)
      | _ => fun _ => None
      end r
  end.

(** The post id of a count query and the backend's answer. *)
Definition count_of (x : exchange E) : option (string * CountReply) :=
  match x with
  | existT _ (e, r) =>
      match e in supabaseE _ _ _ X return X -> _ with
      | TableCount _ eq => fun r => Some (eq.2, r)
      | _ => fun _ => None
      end r
  end.
End Log.

(** ** The post slice ([app/blogSlice]) *)

Module BlogSlice.

Record Blog := {
  id : string;
  title : string;
  content : string;
  user_id : string;
  email : string;
  image_path : option string;
  created_at : string;
}.

Record BlogState := {
  blogs : list Blog;
  status : Status;
  error : option string;
}.

Definition initialState : BlogState :=
  {| blogs := []; status := idle; error := None |}.

(** The object [createBlog] inserts. *)
Record BlogData := {
  d_title : string;
  d_content : string;
  d_user_id : string;
  d_email : string;
  d_image_path : option string;
}.

(** The object [updateBlog] passes to [update]. *)
Record BlogPatch := {
  p_title : string;
  p_content : string;
  p_image_path : option string;
}.

Definition E := supabaseE Blog BlogData BlogPatch.

Definition rejectWithValue {A} (msg : string) : thunk E (Completion A) :=
  Ret (RejectWithValue msg).

Definition fetchBlogs : thunk E (Completion (option (list Blog))) :=
  let* r := await (TableSelect "posts" None "created_at") in
  match Supabase.error r with
  | Some message => rejectWithValue message
  | None => Ret (Return (data r))
  end.

Definition createBlog (title content : string) (file : option File)
    (user : option Auth.User) : thunk E (Completion (option Blog)) :=
  match user with
  | None => rejectWithValue "Not authenticated or user has no ID"
  | Some user =>
      if negb (truthy (Auth.id user))
      then rejectWithValue "Not authenticated or user has no ID"
      else
        let? image_path :=
          match file with
          | Some file =>
              let* now := await DateNow in
              let image_path :=
                Auth.id user +:+ "/" +:+ pretty now +:+ "-" +:+ name file in
              let* uploadError :=
                await (StorageUpload "post-files" image_path file) in
              match uploadError with
              | Some message => rejectWithValue message
              | None => Ret (Return (Some image_path))
              end
          | None => Ret (Return None)
          end in
        let blogData :=
          {| d_title := title; d_content := content;
             d_user_id := Auth.id user; d_email := Auth.email user;
             d_image_path := image_path |} in
        let* r := await (TableInsert "posts" [blogData]) in
        match Supabase.error r with
        | Some message => rejectWithValue message
        | None => Ret (Return (data r))
        end
  end.

Definition updateBlog (id title content : string) (file : option File)
    (oldImagePath : option string) (user : option Auth.User)
    : thunk E (Completion (option Blog)) :=
  tryCatch
    (match user with
     | None => rejectWithValue "Not authenticated"
     | Some user =>
         if negb (truthy (Auth.id user))
         then rejectWithValue "Not authenticated"
         else
           let? newImagePath :=
             match file with
             | Some file =>
                 let* now := await DateNow in
                 let filePath :=
                   Auth.id user +:+ "/" +:+ pretty now +:+ "-" +:+ name file in
                 let* _ :=
                   if truthy_opt oldImagePath
                   then await (StorageRemove "post-files"
                                 (option_list oldImagePath))
                   else Ret tt in
                 let* uploadError :=
                   await (StorageUpload "post-files" filePath file) in
                 match uploadError with
                 | Some message => rejectWithValue message
                 | None => Ret (Return (Some filePath))
                 end
             | None => Ret (Return oldImagePath)
             end in
           let* r :=
             await (TableUpdate "posts"
                      {| p_title := title; p_content := content;
                         p_image_path := newImagePath |}
                      ("id", id)) in
           match Supabase.error r with
           | Some message => rejectWithValue message
           | None => Ret (Return (data r))
           end
     end)
    (fun message => rejectWithValue message).

Definition deleteBlog (id : string) : thunk E (Completion string) :=
  let* error := await (TableDelete "posts" ("id", id)) in
  match error with
  | Some message => rejectWithValue message
  | None => Ret (Return id)
  end.

(** The actions the thunks dispatch.  The slice has no reducers of its
    own. *)
Inductive Action :=
| fetchBlogs_pending
| fetchBlogs_fulfilled (payload : option (list Blog))
| fetchBlogs_rejected (payload : option string)
| createBlog_pending
| createBlog_fulfilled (payload : option Blog)
| createBlog_rejected (payload : option string)
| updateBlog_pending
| updateBlog_fulfilled (payload : option Blog)
| updateBlog_rejected (payload : option string)
| deleteBlog_pending
| deleteBlog_fulfilled (payload : string)
| deleteBlog_rejected (payload : option string).

(** [blogs.findIndex((b) => b.id === i)]: the first index whose post has
    the id, [-1] when there is none. *)
Definition findIndex (i : string) (blogs : list Blog) : Z :=
  match list_find (fun b => id b = i) blogs with
  | Some (idx, _) => Z.of_nat idx
  | None => -1
  end.

(** The reducer built by [extraReducers]; an action without a case leaves
    the state as it is. *)
Definition reducer (state : BlogState) (action : Action) : BlogState :=
  match action with
  | fetchBlogs_pending =>
      {| blogs := blogs state; status := loading; error := None |}
  | fetchBlogs_fulfilled payload =>
      {| blogs := default [] payload; status := succeeded;
         error := error state |}
  | fetchBlogs_rejected payload =>
      {| blogs := blogs state; status := failed; error := payload |}
  | createBlog_fulfilled (Some payload) =>
      {| blogs := payload :: blogs state; status := status state;
         error := error state |}
  | updateBlog_fulfilled (Some payload) =>
      let idx := findIndex (id payload) (blogs state) in
      if decide (idx ≠ -1)
      then {| blogs := <[Z.to_nat idx := payload]> (blogs state);
              status := status state; error := error state |}
      else state
  | deleteBlog_fulfilled payload =>
      {| blogs := filter (fun b => id b ≠ payload) (blogs state);
         status := status state; error := error state |}
  | _ => state
  end.

(** Dispatching a thunk: [pending] goes through the reducer, the payload
    creator runs against the backend, and the action it settles into goes
    through the reducer. *)
Definition dispatch {W A} (h : handler E W) (pending : Action)
    (fulfilled : A -> Action) (rejected : option string -> Action)
    (creator : thunk E (Completion A)) (state : BlogState) (w : W)
    : BlogState * Settled A * W * list (exchange E) :=
  let state := reducer state pending in
  let '(c, w', log) := run h creator w in
  let action :=
    match settle c with
    | Fulfilled payload => fulfilled payload
    | Rejected payload => rejected payload
    end in
  (reducer state action, settle c, w', log).

Definition dispatch_fetchBlogs {W} (h : handler E W) :=
  dispatch h fetchBlogs_pending fetchBlogs_fulfilled fetchBlogs_rejected
    fetchBlogs.

Definition dispatch_createBlog {W} (h : handler E W) title content file user :=
  dispatch h createBlog_pending createBlog_fulfilled createBlog_rejected
    (createBlog title content file user).

Definition dispatch_updateBlog {W} (h : handler E W)
    id title content file oldImagePath user :=
  dispatch h updateBlog_pending updateBlog_fulfilled updateBlog_rejected
    (updateBlog id title content file oldImagePath user).

Definition dispatch_deleteBlog {W} (h : handler E W) id :=
  dispatch h deleteBlog_pending deleteBlog_fulfilled deleteBlog_rejected
    (deleteBlog id).

End BlogSlice.

(** ** The comment slice ([app/commentsSlice]) *)

Module CommentsSlice.

Record Comment := {
  id : string;
  content : string;
  post_id : string;
  user_id : string;
  email : string;
  image_path : option string;
  created_at : string;
  updated_at : string;
}.

Record CommentState := {
  comments : list Comment;
  commentCounts : gmap string Z;
  status : Status;
  error : option string;
}.

Definition initialState : CommentState :=
  {| comments := []; commentCounts := ∅; status := idle; error := None |}.

(** The object [createComment] inserts. *)
Record CommentData := {
  d_content : string;
  d_post_id : string;
  d_user_id : string;
  d_email : string;
  d_image_path : option string;
}.

(** The object [updateComment] passes to [update]. *)
Record CommentPatch := {
  p_content : string;
  p_image_path : option string;
  p_updated_at : string;
}.

Definition E := supabaseE Comment CommentData CommentPatch.

Definition rejectWithValue {A} (msg : string) : thunk E (Completion A) :=
  Ret (RejectWithValue msg).

Definition fetchCommentsByPost (postId : string)
    : thunk E (Completion (option (list Comment))) :=
  let* r :=
    await (TableSelect "comments" (Some ("post_id", postId)) "created_at") in
  match Supabase.error r with
  | Some message => rejectWithValue message
  | None => Ret (Return (data r))
  end.

(** The [for] loop of [fetchCommentCounts] over the ids still to query,
    [counts] being the object filled so far. *)
Fixpoint fetchCommentCounts_loop (postIds : list string)
    (counts : gmap string Z) : thunk E (Completion (gmap string Z)) :=
  match postIds with
  | [] => Ret (Return counts)
  | postId :: rest =>
      let* r := await (TableCount "comments" ("post_id", postId)) in
      match count_error r with
      | Some message => Ret (Throw message)
      | None =>
          fetchCommentCounts_loop rest
            (<[postId := default 0 (count r)]> counts)
      end
  end.

Definition fetchCommentCounts (postIds : list string)
    : thunk E (Completion (gmap string Z)) :=
  tryCatch (fetchCommentCounts_loop postIds ∅)
    (fun message => rejectWithValue message).

(** The storage key of a comment's attachment. *)
Definition attachmentPath (user : Auth.User) (now : N) (random : string)
    (file : File) : string :=
  let fileExt := split_pop "" (name file) in
  let fileName :=
    pretty now +:+ "-" +:+ substring_from 7 random +:+ "." +:+ fileExt in
  Auth.id user +:+ "/" +:+ fileName.

Definition createComment (postId content : string) (file : option File)
    (user : option Auth.User) : thunk E (Completion (option Comment)) :=
  match user with
  | None => rejectWithValue "Not authenticated"
  | Some user =>
      if negb (truthy (Auth.id user))
      then rejectWithValue "Not authenticated"
      else
        let? image_path :=
          match file with
          | Some file =>
              let* now := await DateNow in
              let* random := await MathRandomToString36 in
              let image_path := attachmentPath user now random file in
              let* uploadError :=
                await (StorageUpload "post-files" image_path file) in
              match uploadError with
              | Some message => rejectWithValue message
              | None => Ret (Return (Some image_path))
              end
          | None => Ret (Return None)
          end in
        let commentData :=
          {| d_content := content; d_post_id := postId;
             d_user_id := Auth.id user; d_email := Auth.email user;
             d_image_path := image_path |} in
        let* r := await (TableInsert "comments" [commentData]) in
        match Supabase.error r with
        | Some message => rejectWithValue message
        | None => Ret (Return (data r))
        end
  end.

Definition updateComment (id content : string) (file : option File)
    (oldImagePath : option string) (shouldRemoveImage : bool)
    (user : option Auth.User) : thunk E (Completion (option Comment)) :=
  tryCatch
    (match user with
     | None => rejectWithValue "Not authenticated"
     | Some user =>
         if negb (truthy (Auth.id user))
         then rejectWithValue "Not authenticated"
         else
           let? newImagePath :=
             if shouldRemoveImage then
               let* _ :=
                 if truthy_opt oldImagePath
                 then await (StorageRemove "post-files"
                               (option_list oldImagePath))
                 else Ret tt in
               Ret (Return None)
             else
               match file with
               | Some file =>
                   let* now := await DateNow in
                   let* random := await MathRandomToString36 in
                   let filePath := attachmentPath user now random file in
                   let* _ :=
                     if truthy_opt oldImagePath
                     then await (StorageRemove "post-files"
                                   (option_list oldImagePath))
                     else Ret tt in
                   let* uploadError :=
                     await (StorageUpload "post-files" filePath file) in
                   match uploadError with
                   | Some message => rejectWithValue message
                   | None => Ret (Return (Some filePath))
                   end
               | None => Ret (Return oldImagePath)
               end in
           let* updated_at := await DateToISOString in
           let* r :=
             await (TableUpdate "comments"
                      {| p_content := content; p_image_path := newImagePath;
                         p_updated_at := updated_at |}
                      ("id", id)) in
           match Supabase.error r with
           | Some message => rejectWithValue message
           | None => Ret (Return (data r))
           end
     end)
    (fun message => rejectWithValue message).

Definition deleteComment (id : string) (imagePath : option string)
    : thunk E (Completion string) :=
  let* _ :=
    if truthy_opt imagePath
    then await (StorageRemove "post-files" (option_list imagePath))
    else Ret tt in
  let* error := await (TableDelete "comments" ("id", id)) in
  match error with
  | Some message => rejectWithValue message
  | None => Ret (Return id)
  end.

(** The slice's own action [clearComments] and the actions the thunks
    dispatch. *)
Inductive Action :=
| clearComments
| fetchCommentsByPost_pending
| fetchCommentsByPost_fulfilled (payload : option (list Comment))
| fetchCommentsByPost_rejected (payload : option string)
| fetchCommentCounts_pending
| fetchCommentCounts_fulfilled (payload : gmap string Z)
| fetchCommentCounts_rejected (payload : option string)
| createComment_pending
| createComment_fulfilled (payload : option Comment)
| createComment_rejected (payload : option string)
| updateComment_pending
| updateComment_fulfilled (payload : option Comment)
| updateComment_rejected (payload : option string)
| deleteComment_pending
| deleteComment_fulfilled (payload : string)
| deleteComment_rejected (payload : option string).

(** [comments.findIndex((c) => c.id === i)]. *)
Definition findIndex (i : string) (comments : list Comment) : Z :=
  match list_find (fun c => id c = i) comments with
  | Some (idx, _) => Z.of_nat idx
  | None => -1
  end.

(** [comments.find((c) => c.id === i)]. *)
Definition find (i : string) (comments : list Comment) : option Comment :=
  snd <$> list_find (fun c => id c = i) comments.

(** [commentCounts[postId] || 0]. *)
Definition countOrZero (commentCounts : gmap string Z) (postId : string) : Z :=
  default 0 (commentCounts !! postId).

Definition reducer (state : CommentState) (action : Action) : CommentState :=
  match action with
  | clearComments =>
      {| comments := []; commentCounts := commentCounts state;
         status := idle; error := None |}
  | fetchCommentsByPost_pending =>
      {| comments := comments state; commentCounts := commentCounts state;
         status := loading; error := None |}
  | fetchCommentsByPost_fulfilled payload =>
      {| comments := default [] payload;
         commentCounts := commentCounts state;
         status := succeeded; error := error state |}
  | fetchCommentsByPost_rejected payload =>
      {| comments := comments state; commentCounts := commentCounts state;
         status := failed; error := payload |}
  | fetchCommentCounts_fulfilled payload =>
      {| comments := comments state; commentCounts := payload;
         status := status state; error := error state |}
  | createComment_fulfilled (Some payload) =>
      let postId := post_id payload in
      {| comments := payload :: comments state;
         commentCounts :=
           <[postId := countOrZero (commentCounts state) postId + 1]>
             (commentCounts state);
         status := status state; error := error state |}
  | updateComment_fulfilled (Some payload) =>
      let idx := findIndex (id payload) (comments state) in
      if decide (idx ≠ -1)
      then {| comments := <[Z.to_nat idx := payload]> (comments state);
              commentCounts := commentCounts state;
              status := status state; error := error state |}
      else state
  | deleteComment_fulfilled payload =>
      let deletedComment := find payload (comments state) in
      let comments' := filter (fun c => id c ≠ payload) (comments state) in
      match deletedComment with
      | Some deletedComment =>
          let postId := post_id deletedComment in
          {| comments := comments';
             commentCounts :=
               <[postId :=
                   Z.max 0 (countOrZero (commentCounts state) postId - 1)]>
                 (commentCounts state);
             status := status state; error := error state |}
      | None =>
          {| comments := comments'; commentCounts := commentCounts state;
             status := status state; error := error state |}
      end
  | _ => state
  end.

Definition dispatch {W A} (h : handler E W) (pending : Action)
    (fulfilled : A -> Action) (rejected : option string -> Action)
    (creator : thunk E (Completion A)) (state : CommentState) (w : W)
    : CommentState * Settled A * W * list (exchange E) :=
  let state := reducer state pending in
  let '(c, w', log) := run h creator w in
  let action :=
    match settle c with
    | Fulfilled payload => fulfilled payload
    | Rejected payload => rejected payload
    end in
  (reducer state action, settle c, w', log).

Definition dispatch_fetchCommentsByPost {W} (h : handler E W) postId :=
  dispatch h fetchCommentsByPost_pending fetchCommentsByPost_fulfilled
    fetchCommentsByPost_rejected (fetchCommentsByPost postId).

Definition dispatch_fetchCommentCounts {W} (h : handler E W) postIds :=
  dispatch h fetchCommentCounts_pending fetchCommentCounts_fulfilled
    fetchCommentCounts_rejected (fetchCommentCounts postIds).

Definition dispatch_createComment {W} (h : handler E W)
    postId content file user :=
  dispatch h createComment_pending createComment_fulfilled
    createComment_rejected (createComment postId content file user).

Definition dispatch_updateComment {W} (h : handler E W)
    id content file oldImagePath shouldRemoveImage user :=
  dispatch h updateComment_pending updateComment_fulfilled
    updateComment_rejected
    (updateComment id content file oldImagePath shouldRemoveImage user).

Definition dispatch_deleteComment {W} (h : handler E W) id imagePath :=
  dispatch h deleteComment_pending deleteComment_fulfilled
    deleteComment_rejected (deleteComment id imagePath).

End CommentsSlice.


(** ** The store ([app/store]) *)

Module Store.

(** Modelled from the spec: the state of the auth slice
    ([features/auth/authSlice]) is not part of the sources at hand; the
    thunks read the session's user from it, which may be absent. *)
Record AuthState := { user : option Auth.User }.

(** [ReturnType<typeof store.getState>]: one field per reducer given to
    [configureStore]. *)
Record RootState := {
  auth : AuthState;
  blog : BlogSlice.BlogState;
  comments : CommentsSlice.CommentState;
}.

End Store.

(** ** The selectors exported by the slices *)

Definition selectAllBlogs (state : Store.RootState) : list BlogSlice.Blog :=
  BlogSlice.blogs (Store.blog state).

Definition getPostsStatus (state : Store.RootState) : Status :=
  BlogSlice.status (Store.blog state).

Definition getPostsError (state : Store.RootState) : option string :=
  BlogSlice.error (Store.blog state).

(** [state.blog.blogs.find((blog) => blog.id === blogId)]. *)
Definition selectBlogById (state : Store.RootState) (blogId : string)
    : option BlogSlice.Blog :=
  snd <$> list_find (fun blog => BlogSlice.id blog = blogId)
            (BlogSlice.blogs (Store.blog state)).

Definition selectAllComments (state : Store.RootState)
    : list CommentsSlice.Comment :=
  CommentsSlice.comments (Store.comments state).

Definition getCommentsStatus (state : Store.RootState) : Status :=
  CommentsSlice.status (Store.comments state).

Definition getCommentsError (state : Store.RootState) : option string :=
  CommentsSlice.error (Store.comments state).

Definition selectCommentCounts (state : Store.RootState) : gmap string Z :=
  CommentsSlice.commentCounts (Store.comments state).

(** [state.comments.commentCounts[postId] || 0]. *)
Definition selectCommentCountByPost (state : Store.RootState)
    (postId : string) : Z :=
  default 0 (CommentsSlice.commentCounts (Store.comments state) !! postId).

(** ** The comment list component ([components/Comments]) *)

Module Comments.

(** The effect run when the component is given a post id:
    [dispatch(clearComments())], then
    [dispatch(fetchCommentsByPost(postId))], which is not awaited.  When the
    effect returns, the clear and the thunk's [pending] action have gone
    through the reducer and the query is on its way; the action the thunk
    settles into is dispatched when the query has been answered, after
    whatever else has been dispatched by then.  The result is the state the
    effect leaves, that later action, the backend's state and the exchange. *)
Definition useEffect_postId {W} (h : handler CommentsSlice.E W)
    (postId : string) (state : CommentsSlice.CommentState) (w : W)
    : CommentsSlice.CommentState * CommentsSlice.Action * W
      * list (exchange CommentsSlice.E) :=
  let state := CommentsSlice.reducer state CommentsSlice.clearComments in
  let state :=
    CommentsSlice.reducer state CommentsSlice.fetchCommentsByPost_pending in
  let '(c, w', log) := run h (CommentsSlice.fetchCommentsByPost postId) w in
  let settled :=
    match settle c with
    | Fulfilled payload => CommentsSlice.fetchCommentsByPost_fulfilled payload
    | Rejected payload => CommentsSlice.fetchCommentsByPost_rejected payload
    end in
  (state, settled, w', log).

End Comments.

(** An exchange: the call [e] and the answer [x] it got. *)
Definition asked {E : Type -> Type} {X : Type} (e : E X) (x : X) : exchange E :=
  existT X (e, x).
(** * Vocabulary of the statements *)

(** Actions of a fetch of the posts that has not succeeded: its start and
    its failure. *)
Definition unsuccessful_fetch (a : BlogSlice.Action) : bool :=
  match a with
  | BlogSlice.fetchBlogs_pending | BlogSlice.fetchBlogs_rejected _ => true
  | _ => false
  end.

(** The fulfilled creates and deletes of comments, as a sequence of
    events. *)
Inductive CountEvent :=
| Created (c : CommentsSlice.Comment)
| Deleted (i : string).

Definition action_of (e : CountEvent) : CommentsSlice.Action :=
  match e with
  | Created c => CommentsSlice.createComment_fulfilled (Some c)
  | Deleted i => CommentsSlice.deleteComment_fulfilled i
  end.

(** The event concerns post [P]: it creates a comment of [P], or deletes a
    comment that the cache holds at that moment and that belongs to [P]. *)
Definition concerns (P : string) (s : CommentsSlice.CommentState)
    (e : CountEvent) : Prop :=
  match e with
  | Created c => CommentsSlice.post_id c = P
  | Deleted i =>
      ∃ c, CommentsSlice.find i (CommentsSlice.comments s) = Some c
           ∧ CommentsSlice.post_id c = P
  end.

(** Every event of the sequence concerns [P] in the state it is applied
    to. *)
Fixpoint all_concern (P : string) (s : CommentsSlice.CommentState)
    (events : list CountEvent) : Prop :=
  match events with
  | [] => True
  | e :: rest =>
      concerns P s e
      ∧ all_concern P (CommentsSlice.reducer s (action_of e)) rest
  end.

(** The number of creates and of deletes in a sequence. *)
Fixpoint creates (events : list CountEvent) : Z :=
  match events with
  | [] => 0
  | Created _ :: rest => 1 + creates rest
  | Deleted _ :: rest => creates rest
  end.

Fixpoint deletes (events : list CountEvent) : Z :=
  match events with
  | [] => 0
  | Created _ :: rest => deletes rest
  | Deleted _ :: rest => 1 + deletes rest
  end.

(** Starting from count [c], no delete of the sequence meets a count
    below 1: the floor at 0 is never needed. *)
Fixpoint never_floored (c : Z) (events : list CountEvent) : Prop :=
  match events with
  | [] => True
  | Created _ :: rest => never_floored (c + 1) rest
  | Deleted _ :: rest => (1 ≤ c)%Z ∧ never_floored (c - 1) rest
  end.

(** The count an event leaves behind: one more after a create, one less
    but not below 0 after a delete. *)
Definition count_after (c : Z) (e : CountEvent) : Z :=
  match e with
  | Created _ => c + 1
  | Deleted _ => Z.max 0 (c - 1)
  end.

(** The error message of a failed count query, [None] for an exchange that
    is no count query or that succeeded. *)
Definition count_failed (x : exchange CommentsSlice.E) : option string :=
  match count_of x with
  | Some (_, r) => count_error r
  | None => None
  end.

(** The post ids of the count queries in a log, in order. *)
Definition queried (log : list (exchange CommentsSlice.E)) : list string :=
  omap (λ x, fst <$> count_of x) log.

(** The object that the answers of a log's count queries add up to from
    [counts], a later answer for an id replacing an earlier one and a null
    count standing for 0. *)
Definition counts_from (counts : gmap string Z)
    (log : list (exchange CommentsSlice.E)) : gmap string Z :=
  foldl (λ m x,
           match count_of x with
           | Some (postId, r) => <[postId := default 0 (count r)]> m
           | None => m
           end) counts log.

(** A backend that answers from a script, whatever it is asked: uploads end
    with [uploadError], count queries with [countError], writes to a table
    with [writeError], and every row it returns is [row]. *)
Definition scripted {Row Ins Upd} (uploadError countError writeError : option string)
    (row : option Row) : handler (supabaseE Row Ins Upd) unit :=
  λ X e w,
    match e in supabaseE _ _ _ X return X * unit with
    | DateNow => (1700000000000%N, tt)
    | MathRandomToString36 => ("0.4fzyo82mvyr", tt)
    | DateToISOString => ("2024-01-01T00:00:00.000Z", tt)
    | StorageUpload _ _ _ => (uploadError, tt)
    | StorageRemove _ _ => (tt, tt)
    | TableSelect _ _ _ =>
        ({| data := Some (option_list row); error := None |}, tt)
    | TableInsert _ _ =>
        ({| data := match writeError with Some _ => None | None => row end;
            error := writeError |}, tt)
    | TableUpdate _ _ _ =>
        ({| data := match writeError with Some _ => None | None => row end;
            error := writeError |}, tt)
    | TableDelete _ _ => (writeError, tt)
    | TableCount _ _ => ({| count := Some 1; count_error := countError |}, tt)
    end.

(** The backend's contract for updates, as far as the attachment goes: the
    row it answers an update with carries the [image_path] just written. *)
Definition returns_written_image {W} (h : handler CommentsSlice.E W) : Prop :=
  ∀ table patch eq w row,
    data (h _ (TableUpdate table patch eq) w).1 = Some row →
    CommentsSlice.image_path row = CommentsSlice.p_image_path patch.

(** A scripted backend whose answer to an update is the row as written. *)
Definition echoing : handler CommentsSlice.E unit :=
  λ X e w,
    match e in supabaseE _ _ _ X return X * unit with
    | TableUpdate _ patch eq =>
        ({| data :=
              Some {| CommentsSlice.id := eq.2;
                      CommentsSlice.content := CommentsSlice.p_content patch;
                      CommentsSlice.post_id := "p1";
                      CommentsSlice.user_id := "u1";
                      CommentsSlice.email := "u1@example.org";
                      CommentsSlice.image_path :=
                        CommentsSlice.p_image_path patch;
                      CommentsSlice.created_at := "2024-01-01T00:00:00.000Z";
                      CommentsSlice.updated_at :=
                        CommentsSlice.p_updated_at patch |};
            error := None |}, tt)
    | e' => scripted None None None None _ e' w
    end.

(** The actions of the mutations (create, update, delete) of each slice, and
    among them those of a failed mutation. *)
Definition blog_mutation (a : BlogSlice.Action) : bool :=
  match a with
  | BlogSlice.fetchBlogs_pending
  | BlogSlice.fetchBlogs_fulfilled _
  | BlogSlice.fetchBlogs_rejected _ => false
  | _ => true
  end.

Definition blog_mutation_failed (a : BlogSlice.Action) : bool :=
  match a with
  | BlogSlice.createBlog_rejected _
  | BlogSlice.updateBlog_rejected _
  | BlogSlice.deleteBlog_rejected _ => true
  | _ => false
  end.

Definition comment_mutation (a : CommentsSlice.Action) : bool :=
  match a with
  | CommentsSlice.createComment_pending
  | CommentsSlice.createComment_fulfilled _
  | CommentsSlice.createComment_rejected _
  | CommentsSlice.updateComment_pending
  | CommentsSlice.updateComment_fulfilled _
  | CommentsSlice.updateComment_rejected _
  | CommentsSlice.deleteComment_pending
  | CommentsSlice.deleteComment_fulfilled _
  | CommentsSlice.deleteComment_rejected _ => true
  | _ => false
  end.

Definition comment_mutation_failed (a : CommentsSlice.Action) : bool :=
  match a with
  | CommentsSlice.createComment_rejected _
  | CommentsSlice.updateComment_rejected _
  | CommentsSlice.deleteComment_rejected _ => true
  | _ => false
  end.

(** The ids of the cached posts and of the cached comments, in cache
    order. *)
Definition blog_ids (s : BlogSlice.BlogState) : list string :=
  BlogSlice.id <$> BlogSlice.blogs s.

Definition comment_ids (s : CommentsSlice.CommentState) : list string :=
  CommentsSlice.id <$> CommentsSlice.comments s.

(** An action that brings no id into the post cache twice: a fetched list
    without repeated ids, a created post whose id is not cached yet. *)
Definition adds_no_duplicate_post (s : BlogSlice.BlogState)
    (a : BlogSlice.Action) : Prop :=
  match a with
  | BlogSlice.fetchBlogs_fulfilled (Some l) => NoDup (BlogSlice.id <$> l)
  | BlogSlice.createBlog_fulfilled (Some b) => BlogSlice.id b ∉ blog_ids s
  | _ => True
  end.

Definition adds_no_duplicate_comment (s : CommentsSlice.CommentState)
    (a : CommentsSlice.Action) : Prop :=
  match a with
  | CommentsSlice.fetchCommentsByPost_fulfilled (Some l) =>
      NoDup (CommentsSlice.id <$> l)
  | CommentsSlice.createComment_fulfilled (Some c) =>
      CommentsSlice.id c ∉ comment_ids s
  | _ => True
  end.

(** No recorded count is negative. *)
Definition counts_nonneg (m : gmap string Z) : Prop :=
  map_Forall (λ _ k, 0 ≤ k) m.

(** [!(!user || !user.id)]: there is a session user and its id is not
    empty. *)
Definition authenticated (user : option Auth.User) : bool :=
  match user with
  | Some u => truthy (Auth.id u)
  | None => false
  end.

(** No count query of the log was answered with a negative count. *)
Definition answers_nonneg (log : list (exchange CommentsSlice.E)) : Prop :=
  Forall (λ x, ∀ p r k, count_of x = Some (p, r) → count r = Some k → 0 ≤ k)
    log.

(** The storage key [createBlog] and [updateBlog] derive for a file:
    the user's id, a slash, the time in milliseconds, a dash and the file's
    name. *)
Definition postImageKey (u : Auth.User) (now : N) (file : File) : string :=
  Auth.id u +:+ "/" +:+ pretty now +:+ "-" +:+ name file.

(** The removal of the old image that the updates ask for first: one call
    when there is an old key, none when it is null or empty. *)
Definition old_image_removal {Row Ins Upd} (oldImagePath : option string)
    : list (exchange (supabaseE Row Ins Upd)) :=
  if truthy_opt oldImagePath
  then [asked (StorageRemove "post-files" (option_list oldImagePath)) tt]
  else [].

(** The string has no dot. *)
Fixpoint dotless (s : string) : bool :=
  match s with
  | EmptyString => true
  | String c rest => negb (Ascii.eqb c "."%char) && dotless rest
  end.

(** The status an action of the post slice sets, if it sets one, and the
    error it sets, if it sets one. *)
Definition blog_status_set (a : BlogSlice.Action) : option Status :=
  match a with
  | BlogSlice.fetchBlogs_pending => Some loading
  | BlogSlice.fetchBlogs_fulfilled _ => Some succeeded
  | BlogSlice.fetchBlogs_rejected _ => Some failed
  | _ => None
  end.

Definition blog_error_set (a : BlogSlice.Action) : option (option string) :=
  match a with
  | BlogSlice.fetchBlogs_pending => Some None
  | BlogSlice.fetchBlogs_rejected payload => Some payload
  | _ => None
  end.

(** The same for the comment slice, where [clearComments] resets both. *)
Definition comment_status_set (a : CommentsSlice.Action) : option Status :=
  match a with
  | CommentsSlice.clearComments => Some idle
  | CommentsSlice.fetchCommentsByPost_pending => Some loading
  | CommentsSlice.fetchCommentsByPost_fulfilled _ => Some succeeded
  | CommentsSlice.fetchCommentsByPost_rejected _ => Some failed
  | _ => None
  end.

Definition comment_error_set (a : CommentsSlice.Action)
    : option (option string) :=
  match a with
  | CommentsSlice.clearComments => Some None
  | CommentsSlice.fetchCommentsByPost_pending => Some None
  | CommentsSlice.fetchCommentsByPost_rejected payload => Some payload
  | _ => None
  end.

(** The actions that can put a comment into the cache: the success of a
    fetch of comments and the success of a create. *)
Definition brings_comments (a : CommentsSlice.Action) : bool :=
  match a with
  | CommentsSlice.fetchCommentsByPost_fulfilled _
  | CommentsSlice.createComment_fulfilled _ => true
  | _ => false
  end.

(** * Properties of the post cache *)

Section BlogCache.
Import BlogSlice.
Implicit Types (s : BlogState) (b x y : Blog) (l : list Blog) (i : string).

(** [findIndex] answers [-1] exactly when no post has the id. *)
Lemma blog_findIndex_absent i l :
  (∀ x, x ∈ l → id x ≠ i) → findIndex i l = -1.
Proof.
  intros Hno. unfold findIndex.
  assert (list_find (λ b, id b = i) l = None) as ->; [|done].
  apply list_find_None, Forall_forall. auto.
Qed.

(** Otherwise it answers the first index holding a post with the id. *)
Lemma blog_findIndex_present i l :
  findIndex i l ≠ -1 →
  ∃ n x, findIndex i l = Z.of_nat n ∧ l !! n = Some x ∧ id x = i ∧
         ∀ j y, l !! j = Some y → (j < n)%nat → id y ≠ i.
Proof.
  unfold findIndex.
  destruct (list_find _ l) as [[n x]|] eqn:Hfind; [|done].
  intros _. apply list_find_Some in Hfind as (Hn & Hx & Hfirst).
  exists n, x. eauto.
Qed.

Lemma blog_findIndex_elem i l x :
  x ∈ l → id x = i → findIndex i l ≠ -1.
Proof.
  intros Hin Hid. unfold findIndex.
  destruct (list_find_elem_of (λ b, id b = i) l x Hin Hid) as [[n y] ->].
  lia.
Qed.

(** A filter keeps a list whose entries all pass. *)
Lemma filter_all_pass {A} (P : A → Prop) `{!∀ a, Decision (P a)} (l : list A) :
  (∀ a, a ∈ l → P a) → filter P l = l.
Proof.
  induction l as [|a l IH]; intros Hall; [done|].
  rewrite filter_cons_True by (apply Hall; left).
  f_equal. apply IH. intros a' Ha'. apply Hall. by right.
Qed.

Lemma unsuccessful_fetch_keeps_blogs s a :
  unsuccessful_fetch a = true → blogs (reducer s a) = blogs s.
Proof. by destruct a. Qed.

Lemma unsuccessful_fetches_keep_blogs actions : ∀ s,
  Forall (λ a, unsuccessful_fetch a = true) actions →
  blogs (foldl reducer s actions) = blogs s.
Proof.
  induction actions as [|a actions IH]; intros s Hall; [done|].
  inversion Hall as [|? ? Ha Hrest]; subst. simpl.
  rewrite IH by done. by apply unsuccessful_fetch_keeps_blogs.
Qed.
End BlogCache.

(** One fetch of the posts against a backend: the state it leaves is decided
    by the backend's reply to the select. *)
Lemma dispatch_fetchBlogs_state {W} (h : handler BlogSlice.E W) w s0 :
  (BlogSlice.dispatch_fetchBlogs h s0 w).1.1.1
  = match Supabase.error (h _ (TableSelect "posts" None "created_at") w).1 with
    | Some message =>
        {| BlogSlice.blogs := BlogSlice.blogs s0;
           BlogSlice.status := failed;
           BlogSlice.error := Some message |}
    | None =>
        {| BlogSlice.blogs :=
             default [] (data (h _ (TableSelect "posts" None "created_at") w).1);
           BlogSlice.status := succeeded;
           BlogSlice.error := None |}
    end.
Proof.
  unfold BlogSlice.dispatch_fetchBlogs, BlogSlice.dispatch, BlogSlice.fetchBlogs.
  simpl. destruct (h _ _ w) as [reply w1]. simpl.
  by destruct (Supabase.error reply).
Qed.

(** C2.  Whatever happened before, once a fetch of the posts has succeeded
    and only starts and failures of fetches follow, the cached posts are the
    result of that fetch (the empty list for a null result).  A success sets
    the status to succeeded and replaces the posts; a failure sets the status
    to failed, records the message and keeps the posts. *)
Theorem fetchBlogs_last_success_wins
    (s : BlogSlice.BlogState) (before after : list BlogSlice.Action)
    (payload : option (list BlogSlice.Blog)) :
  Forall (λ a, unsuccessful_fetch a = true) after →
  BlogSlice.blogs
    (foldl BlogSlice.reducer s
       (before ++ BlogSlice.fetchBlogs_fulfilled payload :: after))
  = default [] payload
  ∧ BlogSlice.blogs (foldl BlogSlice.reducer s after) = BlogSlice.blogs s
  ∧ (∀ s0 p,
       BlogSlice.reducer s0 (BlogSlice.fetchBlogs_fulfilled p)
       = {| BlogSlice.blogs := default [] p;
            BlogSlice.status := succeeded;
            BlogSlice.error := BlogSlice.error s0 |})
  ∧ (∀ s0 message,
       BlogSlice.reducer s0 (BlogSlice.fetchBlogs_rejected message)
       = {| BlogSlice.blogs := BlogSlice.blogs s0;
            BlogSlice.status := failed;
            BlogSlice.error := message |})
  ∧ (∀ W (h : handler BlogSlice.E W) w s0,
       let reply := (h _ (TableSelect "posts" None "created_at") w).1 in
       (BlogSlice.dispatch_fetchBlogs h s0 w).1.1.1
       = match Supabase.error reply with
         | Some message =>
             {| BlogSlice.blogs := BlogSlice.blogs s0;
                BlogSlice.status := failed;
                BlogSlice.error := Some message |}
         | None =>
             {| BlogSlice.blogs := default [] (data reply);
                BlogSlice.status := succeeded;
                BlogSlice.error := None |}
         end).
Proof.
  intros Hafter.
  split_and!; [|by apply unsuccessful_fetches_keep_blogs|done..|].
  - rewrite foldl_app. simpl.
    by rewrite unsuccessful_fetches_keep_blogs.
  - intros W h w s0. apply dispatch_fetchBlogs_state.
Qed.

Lemma fetchBlogs_last_success_wins_witness :
  let b := {| BlogSlice.id := "p1"; BlogSlice.title := "t";
              BlogSlice.content := "c"; BlogSlice.user_id := "u";
              BlogSlice.email := "e"; BlogSlice.image_path := None;
              BlogSlice.created_at := "2024-01-01" |} in
  BlogSlice.blogs
    (foldl BlogSlice.reducer BlogSlice.initialState
       [BlogSlice.fetchBlogs_pending; BlogSlice.fetchBlogs_rejected (Some "down");
        BlogSlice.fetchBlogs_pending; BlogSlice.fetchBlogs_fulfilled (Some [b]);
        BlogSlice.fetchBlogs_pending; BlogSlice.fetchBlogs_rejected (Some "down")])
  = [b].
Proof.
  intros b.
  apply (fetchBlogs_last_success_wins BlogSlice.initialState
           [BlogSlice.fetchBlogs_pending; BlogSlice.fetchBlogs_rejected (Some "down");
            BlogSlice.fetchBlogs_pending]
           [BlogSlice.fetchBlogs_pending; BlogSlice.fetchBlogs_rejected (Some "down")]
           (Some [b])).
  repeat constructor.
Defined.

(** C3.  A fulfilled create puts the new post at index 0 whatever its
    [created_at]; every post cached before is still there, one index
    further, so their relative order is kept. *)
Theorem createBlog_fulfilled_prepends
    (s : BlogSlice.BlogState) (b : BlogSlice.Blog) :
  let s' := BlogSlice.reducer s (BlogSlice.createBlog_fulfilled (Some b)) in
  BlogSlice.blogs s' = b :: BlogSlice.blogs s
  ∧ BlogSlice.blogs s' !! 0%nat = Some b
  ∧ (∀ n : nat, BlogSlice.blogs s' !! S n = BlogSlice.blogs s !! n)
  ∧ length (BlogSlice.blogs s') = S (length (BlogSlice.blogs s))
  ∧ BlogSlice.status s' = BlogSlice.status s
  ∧ BlogSlice.error s' = BlogSlice.error s.
Proof. by split_and!. Qed.

Section BlogUpdate.
Import BlogSlice.

Lemma updateBlog_fulfilled_absent (s : BlogState) (b : Blog) :
  (∀ x, x ∈ blogs s → id x ≠ id b) →
  reducer s (updateBlog_fulfilled (Some b)) = s.
Proof.
  intros Hno. simpl. rewrite blog_findIndex_absent by done.
  by rewrite decide_False by (intros H; by apply H).
Qed.

Lemma updateBlog_fulfilled_present (s : BlogState) (b : Blog) :
  (∃ x, x ∈ blogs s ∧ id x = id b) →
  ∃ (n : nat) x,
    blogs s !! n = Some x ∧ id x = id b
    ∧ (∀ (j : nat) y, blogs s !! j = Some y → (j < n)%nat → id y ≠ id b)
    ∧ reducer s (updateBlog_fulfilled (Some b))
      = {| blogs := <[n := b]> (blogs s); status := status s;
           error := error s |}.
Proof.
  intros (x0 & Hin & Hid).
  pose proof (blog_findIndex_elem _ _ _ Hin Hid) as Hidx.
  destruct (blog_findIndex_present _ _ Hidx) as (n & x & Heq & Hn & Hx & Hfirst).
  exists n, x. split_and!; [done..|].
  simpl. rewrite decide_True by done.
  by rewrite Heq, Nat2Z.id.
Qed.
End BlogUpdate.

(** C4.  A fulfilled update whose id no cached post has leaves the state,
    and so the posts, exactly as they were, and the update still settles as
    fulfilled: the reducer only runs once it has.  When a post has the id,
    the first such post is replaced at its own index and nothing else
    moves.  *)
Theorem updateBlog_fulfilled_in_place
    (s : BlogSlice.BlogState) (b : BlogSlice.Blog) :
  let s' := BlogSlice.reducer s (BlogSlice.updateBlog_fulfilled (Some b)) in
  ((∀ x, x ∈ BlogSlice.blogs s → BlogSlice.id x ≠ BlogSlice.id b) → s' = s)
  ∧ ((∃ x, x ∈ BlogSlice.blogs s ∧ BlogSlice.id x = BlogSlice.id b) →
     ∃ (n : nat) x,
       BlogSlice.blogs s !! n = Some x
       ∧ BlogSlice.id x = BlogSlice.id b
       ∧ (∀ (j : nat) y, BlogSlice.blogs s !! j = Some y → (j < n)%nat →
                         BlogSlice.id y ≠ BlogSlice.id b)
       ∧ BlogSlice.blogs s' = <[n := b]> (BlogSlice.blogs s)
       ∧ BlogSlice.blogs s' !! n = Some b
       ∧ (∀ j : nat, j ≠ n → BlogSlice.blogs s' !! j = BlogSlice.blogs s !! j)
       ∧ length (BlogSlice.blogs s') = length (BlogSlice.blogs s))
  ∧ BlogSlice.status s' = BlogSlice.status s
  ∧ BlogSlice.error s' = BlogSlice.error s
  ∧ (∀ W (h : handler BlogSlice.E W) w i title content file oldImagePath user
       s1 out w1 log,
       BlogSlice.dispatch_updateBlog h i title content file oldImagePath user s w
       = (s1, out, w1, log) →
       out = Fulfilled (Some b) →
       (∀ x, x ∈ BlogSlice.blogs s → BlogSlice.id x ≠ BlogSlice.id b) →
       s1 = s).
Proof.
  intros s'. split_and!.
  - apply updateBlog_fulfilled_absent.
  - intros Hex.
    destruct (updateBlog_fulfilled_present s b Hex)
      as (n & x & Hn & Hx & Hfirst & Hs').
    exists n, x. subst s'. rewrite Hs'. simpl.
    split_and!; try done.
    + apply list_lookup_insert_eq. by eapply lookup_lt_Some.
    + intros j Hj. by apply list_lookup_insert_ne.
    + apply length_insert.
  - subst s'. simpl. by case_decide.
  - subst s'. simpl. by case_decide.
  - intros W h w i title content file oldImagePath user s1 out w1 log.
    unfold BlogSlice.dispatch_updateBlog, BlogSlice.dispatch.
    destruct (run h _ w) as [[c w'] log'].
    intros [= <- <- <- <-] Hout Hno. rewrite Hout.
    change (BlogSlice.reducer s BlogSlice.updateBlog_pending) with s.
    by apply updateBlog_fulfilled_absent.
Qed.

Lemma updateBlog_fulfilled_in_place_witness :
  let mk i t := {| BlogSlice.id := i; BlogSlice.title := t;
                   BlogSlice.content := "c"; BlogSlice.user_id := "u";
                   BlogSlice.email := "e"; BlogSlice.image_path := None;
                   BlogSlice.created_at := "2024-01-01" |} in
  let s := {| BlogSlice.blogs := [mk "p1" "one"; mk "p2" "two"];
              BlogSlice.status := succeeded; BlogSlice.error := None |} in
  BlogSlice.reducer s (BlogSlice.updateBlog_fulfilled (Some (mk "p3" "three")))
  = s.
Proof.
  intros mk s.
  apply (updateBlog_fulfilled_in_place s (mk "p3" "three")).
  intros x Hx. apply list_elem_of_In in Hx. simpl in Hx.
  destruct Hx as [<-|[<-|[]]]; discriminate.
Defined.

(** The entries a filter on "id differs" drops are those a filter on "id
    equals" keeps. *)
Lemma filter_split_length (i : string) (l : list BlogSlice.Blog) :
  length l
  = (length (filter (λ b, BlogSlice.id b ≠ i) l)
     + length (filter (λ b, BlogSlice.id b = i) l))%nat.
Proof.
  induction l as [|b l IH]; [done|].
  rewrite !filter_cons. destruct (decide (BlogSlice.id b = i)) as [Heq|Hne].
  - rewrite decide_False by (intros H; by apply H). simpl. lia.
  - rewrite decide_True by done. simpl. lia.
Qed.

(** C5, as amended.  A fulfilled delete keeps exactly the posts whose id
    differs from the given one, in their order: it removes every post that
    has the id and nothing else.  So nothing is removed when no post has the
    id; when one cached post has it, that post is the one element removed;
    the number of posts removed is the number of cached posts with the id;
    and a post whose id is not equal to the given id, such as one that merely
    starts with it, is never removed. *)
Theorem deleteBlog_fulfilled_removes_the_match
    (s : BlogSlice.BlogState) (i : string) :
  let s' := BlogSlice.reducer s (BlogSlice.deleteBlog_fulfilled i) in
  ((∀ x, x ∈ BlogSlice.blogs s → BlogSlice.id x ≠ i) → s' = s)
  ∧ (∀ l1 x l2,
       BlogSlice.blogs s = l1 ++ x :: l2 →
       BlogSlice.id x = i →
       (∀ y, y ∈ l1 ++ l2 → BlogSlice.id y ≠ i) →
       BlogSlice.blogs s' = l1 ++ l2
       ∧ S (length (BlogSlice.blogs s')) = length (BlogSlice.blogs s))
  ∧ (∀ y, y ∈ BlogSlice.blogs s' ↔ y ∈ BlogSlice.blogs s ∧ BlogSlice.id y ≠ i)
  ∧ BlogSlice.blogs s' `sublist_of` BlogSlice.blogs s
  ∧ length (BlogSlice.blogs s)
    = (length (BlogSlice.blogs s')
       + length (filter (λ b, BlogSlice.id b = i) (BlogSlice.blogs s)))%nat
  ∧ BlogSlice.status s' = BlogSlice.status s
  ∧ BlogSlice.error s' = BlogSlice.error s.
Proof.
  intros s'. subst s'. simpl. split_and!; try done; try apply filter_split_length.
  - intros Hno. destruct s as [l st e]. simpl in *. f_equal.
    by apply filter_all_pass.
  - intros l1 x l2 Hsplit Hx Hothers. rewrite Hsplit.
    rewrite filter_app, filter_cons_False by (intros H; by apply H).
    rewrite <- filter_app, filter_all_pass by done.
    split; [done|]. rewrite !length_app. simpl. lia.
  - intros y. rewrite list_elem_of_filter. tauto.
  - apply sublist_filter.
Qed.

Lemma deleteBlog_fulfilled_removes_the_match_witness :
  let mk i := {| BlogSlice.id := i; BlogSlice.title := "t";
                 BlogSlice.content := "c"; BlogSlice.user_id := "u";
                 BlogSlice.email := "e"; BlogSlice.image_path := None;
                 BlogSlice.created_at := "2024-01-01" |} in
  let s := {| BlogSlice.blogs := [mk "abc"; mk "ab"; mk "a"];
              BlogSlice.status := succeeded; BlogSlice.error := None |} in
  BlogSlice.blogs (BlogSlice.reducer s (BlogSlice.deleteBlog_fulfilled "ab"))
  = [mk "abc"; mk "a"].
Proof.
  intros mk s.
  destruct (deleteBlog_fulfilled_removes_the_match s "ab") as (_ & Hone & _).
  destruct (Hone [mk "abc"] (mk "ab") [mk "a"]) as [Hblogs _];
    [reflexivity | reflexivity | | exact Hblogs].
  intros y Hy. apply list_elem_of_In in Hy. simpl in Hy.
  destruct Hy as [<-|[<-|[]]]; discriminate.
Defined.

(** C5 as it is stated fails: "exactly one" does not hold in every state.
    A fetch that already returns a post, followed by the fulfilled create of
    that same post, leaves the post cached twice; a fulfilled delete of its
    id then removes both entries. *)
Lemma deleteBlog_fulfilled_removes_every_match :
  let mk i := {| BlogSlice.id := i; BlogSlice.title := "t";
                 BlogSlice.content := "c"; BlogSlice.user_id := "u";
                 BlogSlice.email := "e"; BlogSlice.image_path := None;
                 BlogSlice.created_at := "2024-01-01" |} in
  let s :=
    foldl BlogSlice.reducer BlogSlice.initialState
      [BlogSlice.fetchBlogs_fulfilled (Some [mk "p9"; mk "p1"]);
       BlogSlice.createBlog_fulfilled (Some (mk "p9"))] in
  let s' := BlogSlice.reducer s (BlogSlice.deleteBlog_fulfilled "p9") in
  BlogSlice.blogs s = [mk "p9"; mk "p9"; mk "p1"]
  ∧ (∃ x, x ∈ BlogSlice.blogs s ∧ BlogSlice.id x = "p9")
  ∧ BlogSlice.blogs s' = [mk "p1"]
  ∧ length (BlogSlice.blogs s) = 3%nat
  ∧ length (BlogSlice.blogs s') = 1%nat
  ∧ S (length (BlogSlice.blogs s')) ≠ length (BlogSlice.blogs s).
Proof.
  intros mk s s'. split_and!; try reflexivity.
  - exists (mk "p9"). split; [|reflexivity]. apply list_elem_of_In. by left.
  - simpl. lia.
Qed.

(** * Properties of the comment cache *)

Section CommentCache.
Import CommentsSlice.
Implicit Types (s : CommentState) (l : list Comment) (i P : string).

Lemma comment_find_absent i l :
  (∀ c, c ∈ l → id c ≠ i) → find i l = None.
Proof.
  intros Hno. unfold find.
  assert (list_find (λ c, id c = i) l = None) as ->; [|done].
  apply list_find_None, Forall_forall. auto.
Qed.

Lemma comment_find_present i l (c : Comment) :
  find i l = Some c → c ∈ l ∧ id c = i.
Proof.
  unfold find. destruct (list_find _ l) as [[n x]|] eqn:Hfind; [|done].
  intros [= <-]. apply list_find_Some in Hfind as (Hn & Hx & _).
  split; [|done]. by eapply list_elem_of_lookup_2.
Qed.

Lemma createComment_fulfilled_count s (c : Comment) :
  commentCounts (reducer s (createComment_fulfilled (Some c))) !! post_id c
  = Some (countOrZero (commentCounts s) (post_id c) + 1).
Proof. simpl. apply lookup_insert_eq. Qed.

Lemma deleteComment_fulfilled_found s i (c : Comment) :
  find i (comments s) = Some c →
  reducer s (deleteComment_fulfilled i)
  = {| comments := filter (λ c', id c' ≠ i) (comments s);
       commentCounts :=
         <[post_id c :=
             Z.max 0 (countOrZero (commentCounts s) (post_id c) - 1)]>
           (commentCounts s);
       status := status s; error := error s |}.
Proof. intros Hfind. simpl. by rewrite Hfind. Qed.

Lemma deleteComment_fulfilled_absent s i :
  (∀ c, c ∈ comments s → id c ≠ i) →
  reducer s (deleteComment_fulfilled i) = s.
Proof.
  intros Hno. simpl. rewrite comment_find_absent by done.
  destruct s as [l m st e]. simpl in *. f_equal.
  by apply filter_all_pass.
Qed.

(** One event concerning [P] moves the count of [P] as [count_after]
    says. *)
Lemma count_step P s e c0 :
  commentCounts s !! P = Some c0 →
  concerns P s e →
  commentCounts (reducer s (action_of e)) !! P = Some (count_after c0 e).
Proof.
  intros Hc0. destruct e as [c|i]; simpl.
  - intros <-. unfold countOrZero. rewrite Hc0. apply lookup_insert_eq.
  - intros (c & Hfind & <-). rewrite Hfind. simpl.
    unfold countOrZero. rewrite Hc0. apply lookup_insert_eq.
Qed.

Lemma count_replay P events : ∀ s c0,
  commentCounts s !! P = Some c0 →
  all_concern P s events →
  commentCounts (foldl reducer s (action_of <$> events)) !! P
  = Some (foldl count_after c0 events).
Proof.
  induction events as [|e events IH]; intros s c0 Hc0 Hall; [done|].
  destruct Hall as [He Hrest]. rewrite fmap_cons. simpl foldl.
  apply IH; [|done]. by apply count_step.
Qed.
End CommentCache.

(** ** Arithmetic of a replayed count *)

Lemma count_after_unfloored events : ∀ c : Z,
  never_floored c events →
  foldl count_after c events = c + creates events - deletes events.
Proof.
  induction events as [|[x|i] events IH]; intros c Hnf; simpl in *.
  - lia.
  - rewrite IH by done. lia.
  - destruct Hnf as [Hc Hnf]. rewrite Z.max_r by lia.
    rewrite IH by done. lia.
Qed.

Lemma count_after_lower_bound events : ∀ c : Z,
  0 ≤ c →
  0 ≤ foldl count_after c events
  ∧ c + creates events - deletes events ≤ foldl count_after c events.
Proof.
  induction events as [|[x|i] events IH]; intros c Hc; simpl.
  - lia.
  - destruct (IH (c + 1)) as [H0 Hle]; lia.
  - destruct (IH (Z.max 0 (c - 1))) as [H0 Hle]; lia.
Qed.

Lemma creates_only (cs : list CommentsSlice.Comment) :
  creates (Created <$> cs) = Z.of_nat (length cs)
  ∧ deletes (Created <$> cs) = 0.
Proof.
  induction cs as [|x cs [IHc IHd]]; [done|].
  rewrite fmap_cons, length_cons, Nat2Z.inj_succ. cbn [creates deletes]. lia.
Qed.

Lemma deletes_only (ds : list string) :
  creates (Deleted <$> ds) = 0
  ∧ deletes (Deleted <$> ds) = Z.of_nat (length ds).
Proof.
  induction ds as [|x ds [IHc IHd]]; [done|].
  rewrite fmap_cons, length_cons, Nat2Z.inj_succ. cbn [creates deletes]. lia.
Qed.

Lemma creates_app e1 e2 : creates (e1 ++ e2) = creates e1 + creates e2.
Proof. induction e1 as [|[x|i] e1 IH]; simpl; lia. Qed.

Lemma deletes_app e1 e2 : deletes (e1 ++ e2) = deletes e1 + deletes e2.
Proof. induction e1 as [|[x|i] e1 IH]; simpl; lia. Qed.

Lemma count_after_creates (cs : list CommentsSlice.Comment) : ∀ c : Z,
  foldl count_after c (Created <$> cs) = c + Z.of_nat (length cs).
Proof.
  induction cs as [|x cs IH]; intros c; [simpl; lia|].
  rewrite fmap_cons, length_cons, Nat2Z.inj_succ. cbn [foldl count_after].
  rewrite IH. lia.
Qed.

Lemma count_after_deletes (ds : list string) : ∀ c : Z,
  0 ≤ c →
  foldl count_after c (Deleted <$> ds) = Z.max 0 (c - Z.of_nat (length ds)).
Proof.
  induction ds as [|x ds IH]; intros c Hc; [simpl; lia|].
  rewrite fmap_cons, length_cons, Nat2Z.inj_succ. cbn [foldl count_after].
  rewrite IH by lia. lia.
Qed.

Lemma count_after_creates_then_deletes cs ds (c : Z) :
  0 ≤ c →
  let events := (Created <$> cs) ++ (Deleted <$> ds) in
  foldl count_after c events = Z.max 0 (c + creates events - deletes events).
Proof.
  intros Hc events. subst events.
  rewrite foldl_app, count_after_creates, count_after_deletes by lia.
  rewrite creates_app, deletes_app.
  destruct (creates_only cs) as [-> ->], (deletes_only ds) as [-> ->]. f_equal. lia.
Qed.

(** C1, as amended.  Let the count of post [P] be [c0 ≥ 0] and let every
    event of a sequence concern [P]: a fulfilled create of a comment of [P],
    or a fulfilled delete of a comment of [P] that the cache holds when the
    delete completes.  One such create raises the count by exactly 1 and one
    such delete lowers it by 1, not below 0.  After [n] creates and [m]
    deletes the count is [max(0, c0 + n - m)] when the floor was never
    needed on the way, and also when all creates come before the deletes; in
    any order it is at least that. *)
Theorem comment_count_tracks_creates_and_deletes
    (P : string) (s : CommentsSlice.CommentState) (events : list CountEvent)
    (c0 : Z) :
  CommentsSlice.commentCounts s !! P = Some c0 →
  0 ≤ c0 →
  all_concern P s events →
  let s' := foldl CommentsSlice.reducer s (action_of <$> events) in
  let n := creates events in
  let m := deletes events in
  (∃ k, CommentsSlice.commentCounts s' !! P = Some k
        ∧ Z.max 0 (c0 + n - m) ≤ k)
  ∧ (never_floored c0 events →
     CommentsSlice.commentCounts s' !! P = Some (Z.max 0 (c0 + n - m)))
  ∧ (∀ cs ds, events = (Created <$> cs) ++ (Deleted <$> ds) →
     CommentsSlice.commentCounts s' !! P = Some (Z.max 0 (c0 + n - m)))
  ∧ (∀ c, CommentsSlice.post_id c = P →
     CommentsSlice.commentCounts
       (CommentsSlice.reducer s (CommentsSlice.createComment_fulfilled (Some c)))
       !! P = Some (c0 + 1))
  ∧ (∀ i c, CommentsSlice.find i (CommentsSlice.comments s) = Some c →
     CommentsSlice.post_id c = P →
     CommentsSlice.commentCounts
       (CommentsSlice.reducer s (CommentsSlice.deleteComment_fulfilled i))
       !! P = Some (Z.max 0 (c0 - 1))).
Proof.
  intros Hc0 Hpos Hall s' n m. subst s' n m.
  rewrite (count_replay P events s c0 Hc0 Hall).
  destruct (count_after_lower_bound events c0 Hpos) as [H0 Hle].
  split_and!.
  - eexists. split; [done|]. lia.
  - intros Hnf. rewrite (count_after_unfloored events c0 Hnf) in *.
    f_equal. lia.
  - intros cs ds ->. f_equal. by apply count_after_creates_then_deletes.
  - intros c Hc. apply (count_step P s (Created c) c0 Hc0 Hc).
  - intros i c Hfind Hc.
    apply (count_step P s (Deleted i) c0 Hc0). simpl. eauto.
Qed.

Lemma comment_count_tracks_creates_and_deletes_witness :
  let mk i :=
    {| CommentsSlice.id := i; CommentsSlice.content := "hi";
       CommentsSlice.post_id := "p1"; CommentsSlice.user_id := "u";
       CommentsSlice.email := "e"; CommentsSlice.image_path := None;
       CommentsSlice.created_at := "2024-01-01";
       CommentsSlice.updated_at := "2024-01-01" |} in
  let s :=
    {| CommentsSlice.comments := [mk "c1"];
       CommentsSlice.commentCounts := {["p1" := 2]};
       CommentsSlice.status := succeeded; CommentsSlice.error := None |} in
  CommentsSlice.commentCounts
    (foldl CommentsSlice.reducer s
       (action_of <$> [Created (mk "c2"); Deleted "c1"; Deleted "c2"]))
    !! "p1" = Some (Z.max 0 (2 + 1 - 2)).
Proof.
  intros mk s.
  destruct (comment_count_tracks_creates_and_deletes "p1" s
              [Created (mk "c2"); Deleted "c1"; Deleted "c2"] 2)
    as (_ & Hnf & _).
  - reflexivity.
  - lia.
  - simpl. split_and!; try done; eexists; split; reflexivity.
  - apply Hnf. simpl. lia.
Defined.

(** C1 as it is stated fails.  With a cached comment of post p1 and a
    recorded count of 0, a fulfilled delete of that comment followed by a
    fulfilled create for p1 leaves the count at 1, where
    [max(0, c0 + n - m)] is 0.  And a fulfilled delete of a comment that is
    not cached lowers no count. *)
Lemma comment_count_formula_fails_after_floor :
  let mk i :=
    {| CommentsSlice.id := i; CommentsSlice.content := "hi";
       CommentsSlice.post_id := "p1"; CommentsSlice.user_id := "u";
       CommentsSlice.email := "e"; CommentsSlice.image_path := None;
       CommentsSlice.created_at := "2024-01-01";
       CommentsSlice.updated_at := "2024-01-01" |} in
  let s :=
    foldl CommentsSlice.reducer CommentsSlice.initialState
      [CommentsSlice.fetchCommentCounts_fulfilled {["p1" := 0]};
       CommentsSlice.fetchCommentsByPost_fulfilled (Some [mk "c1"])] in
  let events := [Deleted "c1"; Created (mk "c2")] in
  let s' := foldl CommentsSlice.reducer s (action_of <$> events) in
  CommentsSlice.commentCounts s !! "p1" = Some 0
  ∧ all_concern "p1" s events
  ∧ creates events = 1 ∧ deletes events = 1
  ∧ CommentsSlice.commentCounts s' !! "p1" = Some 1
  ∧ CommentsSlice.commentCounts s' !! "p1"
    ≠ Some (Z.max 0 (0 + creates events - deletes events))
  ∧ CommentsSlice.commentCounts
      (CommentsSlice.reducer
         {| CommentsSlice.comments := [];
            CommentsSlice.commentCounts := {["p1" := 2]};
            CommentsSlice.status := succeeded; CommentsSlice.error := None |}
         (CommentsSlice.deleteComment_fulfilled "c9"))
      !! "p1" = Some 2.
Proof.
  intros mk s events s'. split_and!; try reflexivity.
  - simpl. split_and!; try done. eexists. split; reflexivity.
  - vm_compute. discriminate.
Qed.

(** C10.  A fulfilled delete whose id no cached comment has leaves the
    whole state as it was: nothing leaves [comments] and [commentCounts] is
    unchanged.  A count is lowered only when the comment was found in the
    cache, and then it is the count of that comment's post. *)
Theorem deleteComment_fulfilled_uncached_changes_nothing
    (s : CommentsSlice.CommentState) (i : string) :
  let s' := CommentsSlice.reducer s (CommentsSlice.deleteComment_fulfilled i) in
  ((∀ c, c ∈ CommentsSlice.comments s → CommentsSlice.id c ≠ i) →
   s' = s
   ∧ CommentsSlice.comments s' = CommentsSlice.comments s
   ∧ CommentsSlice.commentCounts s' = CommentsSlice.commentCounts s)
  ∧ (CommentsSlice.commentCounts s' ≠ CommentsSlice.commentCounts s →
     ∃ c, c ∈ CommentsSlice.comments s ∧ CommentsSlice.id c = i
          ∧ CommentsSlice.find i (CommentsSlice.comments s) = Some c
          ∧ CommentsSlice.commentCounts s'
            = <[CommentsSlice.post_id c :=
                  Z.max 0 (CommentsSlice.countOrZero
                             (CommentsSlice.commentCounts s)
                             (CommentsSlice.post_id c) - 1)]>
                (CommentsSlice.commentCounts s)).
Proof.
  intros s'. subst s'. split.
  - intros Hno. by rewrite deleteComment_fulfilled_absent.
  - intros Hchanged.
    destruct (CommentsSlice.find i (CommentsSlice.comments s)) as [c|] eqn:Hfind.
    + exists c. destruct (comment_find_present _ _ _ Hfind) as [Hin Hid].
      split_and!; [done..|].
      by rewrite (deleteComment_fulfilled_found s i c Hfind).
    + exfalso. apply Hchanged. simpl. by rewrite Hfind.
Qed.

Lemma deleteComment_fulfilled_uncached_changes_nothing_witness :
  let c1 :=
    {| CommentsSlice.id := "c1"; CommentsSlice.content := "hi";
       CommentsSlice.post_id := "p1"; CommentsSlice.user_id := "u";
       CommentsSlice.email := "e"; CommentsSlice.image_path := None;
       CommentsSlice.created_at := "2024-01-01";
       CommentsSlice.updated_at := "2024-01-01" |} in
  let s :=
    {| CommentsSlice.comments := [c1];
       CommentsSlice.commentCounts := {["p1" := 1; "p2" := 4]};
       CommentsSlice.status := succeeded; CommentsSlice.error := None |} in
  CommentsSlice.reducer s (CommentsSlice.deleteComment_fulfilled "c7") = s.
Proof.
  intros c1 s.
  destruct (deleteComment_fulfilled_uncached_changes_nothing s "c7")
    as [Habsent _].
  apply Habsent.
  intros c Hc. apply list_elem_of_In in Hc. simpl in Hc.
  destruct Hc as [<-|[]]. discriminate.
Defined.

(** * Properties of the thunks *)

Section Runs.
Context {E : Type → Type} {W : Type} (h : handler E W).

(** A sequence runs its first part, then the rest from where the backend
    was left; the logs follow each other. *)
Lemma run_bind {A B} (t : thunk E A) (f : A → thunk E B) : ∀ w,
  run h (bind t f) w
  = let '(a, w1, log1) := run h t w in
    let '(b, w2, log2) := run h (f a) w1 in
    (b, w2, log1 ++ log2).
Proof.
  induction t as [a|X e k IH]; intros w; simpl.
  - by destruct (run h (f a) w) as [[b w2] log2].
  - destruct (h X e w) as [x w1]. rewrite IH.
    destruct (run h (k x) w1) as [[a w2] log1].
    by destruct (run h (f a) w2) as [[b w3] log2].
Qed.
End Runs.

Section FetchCounts.
Import CommentsSlice.
Context {W : Type} (h : handler E W).

Lemma fetchCommentCounts_loop_run postIds : ∀ counts w,
  let r := run h (fetchCommentCounts_loop postIds counts) w in
  Forall (λ x, is_Some (count_of x)) r.2
  ∧ queried r.2 `prefix_of` postIds
  ∧ match r.1.1 with
    | Return m =>
        queried r.2 = postIds
        ∧ Forall (λ x, count_failed x = None) r.2
        ∧ m = counts_from counts r.2
    | Throw message =>
        ∃ x, last r.2 = Some x ∧ count_failed x = Some message
    | RejectWithValue _ => False
    end.
Proof.
  induction postIds as [|postId rest IH]; intros counts w; simpl.
  - split_and!; by try constructor.
  - destruct (h _ (TableCount "comments" ("post_id", postId)) w)
      as [reply w1] eqn:Hreply.
    destruct (count_error reply) as [message|] eqn:Herr; simpl.
    + split_and!.
      * repeat constructor. by eexists.
      * unfold queried. simpl. apply prefix_cons, prefix_nil.
      * eexists. split; [done|]. unfold count_failed. simpl. done.
    + specialize (IH (<[postId := default 0 (count reply)]> counts) w1).
      destruct (run h (fetchCommentCounts_loop rest _) w1) as [[c w2] log].
      simpl in *. destruct IH as (Hall & Hpre & Hc).
      split_and!.
      * constructor; [by eexists|done].
      * unfold queried in *. simpl. by apply prefix_cons.
      * destruct c as [m|?|message]; [|done|].
        -- destruct Hc as (Hq & Hok & ->). split_and!.
           ++ unfold queried in *. simpl. by rewrite Hq.
           ++ constructor; [|done]. unfold count_failed. simpl. done.
           ++ done.
        -- destruct Hc as (x & Hlast & Hx). exists x. split; [|done].
           destruct log; [done|]. done.
Qed.
End FetchCounts.

(** C8.  [fetchCommentCounts] asks one count query per post id, in the
    order of the input, and stops at the first query that fails.  When a
    query fails the thunk is rejected with that query's message and the
    state, [commentCounts] included, stays as it was: nothing gathered before
    the failure is merged.  When every query succeeds each id has been
    queried and [commentCounts] becomes the object built from the answers. *)
Theorem fetchCommentCounts_all_or_nothing
    {W : Type} (h : handler CommentsSlice.E W) (w : W)
    (postIds : list string) (s : CommentsSlice.CommentState) :
  let r := CommentsSlice.dispatch_fetchCommentCounts h postIds s w in
  let s' := r.1.1.1 in
  let out := r.1.1.2 in
  let log := r.2 in
  Forall (λ x, is_Some (count_of x)) log
  ∧ queried log `prefix_of` postIds
  ∧ (Exists (λ x, is_Some (count_failed x)) log →
     s' = s
     ∧ ∃ x message, last log = Some x ∧ count_failed x = Some message
                    ∧ out = Rejected (Some message))
  ∧ (Forall (λ x, count_failed x = None) log →
     queried log = postIds
     ∧ out = Fulfilled (counts_from ∅ log)
     ∧ s' = {| CommentsSlice.comments := CommentsSlice.comments s;
               CommentsSlice.commentCounts := counts_from ∅ log;
               CommentsSlice.status := CommentsSlice.status s;
               CommentsSlice.error := CommentsSlice.error s |}).
Proof.
  unfold CommentsSlice.dispatch_fetchCommentCounts, CommentsSlice.dispatch,
    CommentsSlice.fetchCommentCounts, tryCatch.
  rewrite run_bind.
  pose proof (fetchCommentCounts_loop_run h postIds ∅ w) as Hloop.
  destruct (run h (CommentsSlice.fetchCommentCounts_loop postIds ∅) w)
    as [[c w1] log].
  simpl in Hloop. destruct Hloop as (Hall & Hpre & Hc).
  destruct c as [m|?|message]; [|done|]; simpl; rewrite app_nil_r.
  - destruct Hc as (Hq & Hok & ->). split_and!; [done..| |done].
    intros Hex. exfalso. apply Exists_exists in Hex as (x & Hx & [m Hm]).
    rewrite Forall_forall in Hok. by rewrite (Hok x Hx) in Hm.
  - destruct Hc as (x & Hlast & Hx). split_and!; [done..| |].
    + intros _. split; [done|]. by exists x, message.
    + intros Hok. exfalso. rewrite Forall_forall in Hok.
      rewrite (Hok x) in Hx; [done|]. by apply last_Some_elem_of.
Qed.

Lemma fetchCommentCounts_all_or_nothing_witness :
  let s :=
    {| CommentsSlice.comments := [];
       CommentsSlice.commentCounts := {["p1" := 3]};
       CommentsSlice.status := succeeded; CommentsSlice.error := None |} in
  let r :=
    CommentsSlice.dispatch_fetchCommentCounts
      (scripted None (Some "timeout") None None) ["p1"; "p2"] s tt in
  r.1.1.1 = s.
Proof.
  intros s r.
  destruct (fetchCommentCounts_all_or_nothing
              (scripted None (Some "timeout") None None) tt ["p1"; "p2"] s)
    as (_ & _ & Hfail & _).
  apply Hfail. apply Exists_cons_hd. by eexists.
Defined.

(** Case analysis on the backend's next answer. *)
Ltac answer h :=
  match goal with
  | |- context [h ?X ?e ?w] =>
      let x := fresh "reply" in
      let w' := fresh "w" in
      destruct (h X e w) as [x w']; simpl
  end.

(** Membership in an explicit log, one exchange at a time. *)
Ltac pick_exchange H :=
  apply list_elem_of_In in H; simpl in H;
  repeat (destruct H as [H|H]; [subst|]); [..|destruct H].

Section CreateUploadFails.
Context {W : Type}.

Lemma createBlog_upload_failure (h : handler BlogSlice.E W) (w : W)
    title content file user (s : BlogSlice.BlogState) :
  let r := BlogSlice.dispatch_createBlog h title content (Some file) user s w in
  ∀ x path message,
    x ∈ r.2 → upload_of x = Some (path, Some message) →
    Forall (λ y, insert_of y = None) r.2
    ∧ r.1.1.1 = s
    ∧ r.1.1.2 = Rejected (Some message).
Proof.
  unfold BlogSlice.dispatch_createBlog, BlogSlice.dispatch,
    BlogSlice.createBlog.
  destruct user as [user|]; simpl; [|by intros ??? ?%elem_of_nil].
  destruct (truthy (Auth.id user)); simpl; [|by intros ??? ?%elem_of_nil].
  answer h. answer h. destruct reply0 as [uploadError|]; simpl.
  - intros x path message Hx Hup. pick_exchange Hx; simplify_eq/=.
    split_and!; [|done..]. by repeat constructor.
  - answer h. destruct (error reply0); simpl;
      intros x path message Hx Hup; pick_exchange Hx; simplify_eq/=.
Qed.

Lemma createComment_upload_failure (h : handler CommentsSlice.E W) (w : W)
    postId content file user (s : CommentsSlice.CommentState) :
  let r :=
    CommentsSlice.dispatch_createComment h postId content (Some file) user s w in
  ∀ x path message,
    x ∈ r.2 → upload_of x = Some (path, Some message) →
    Forall (λ y, insert_of y = None) r.2
    ∧ r.1.1.1 = s
    ∧ r.1.1.2 = Rejected (Some message).
Proof.
  unfold CommentsSlice.dispatch_createComment, CommentsSlice.dispatch,
    CommentsSlice.createComment.
  destruct user as [user|]; simpl; [|by intros ??? ?%elem_of_nil].
  destruct (truthy (Auth.id user)); simpl; [|by intros ??? ?%elem_of_nil].
  answer h. answer h. answer h. destruct reply1 as [uploadError|]; simpl.
  - intros x path message Hx Hup. pick_exchange Hx; simplify_eq/=.
    split_and!; [|done..]. by repeat constructor.
  - answer h. destruct (error reply1); simpl;
      intros x path message Hx Hup; pick_exchange Hx; simplify_eq/=.
Qed.
End CreateUploadFails.

(** C7.  When a create, of a post or of a comment, is given a file and the
    upload of that file fails, no insert is sent to the backend, the cache is
    left as it was and the thunk is rejected with the upload's message. *)
Theorem create_aborts_when_upload_fails
    {W : Type} (hb : handler BlogSlice.E W) (hc : handler CommentsSlice.E W)
    (w : W) (file : File) (user : option Auth.User) :
  (∀ title content (s : BlogSlice.BlogState),
     let r := BlogSlice.dispatch_createBlog hb title content (Some file) user s w in
     ∀ x path message,
       x ∈ r.2 → upload_of x = Some (path, Some message) →
       Forall (λ y, insert_of y = None) r.2
       ∧ r.1.1.1 = s
       ∧ r.1.1.2 = Rejected (Some message))
  ∧ (∀ postId content (s : CommentsSlice.CommentState),
       let r :=
         CommentsSlice.dispatch_createComment hc postId content (Some file)
           user s w in
       ∀ x path message,
         x ∈ r.2 → upload_of x = Some (path, Some message) →
         Forall (λ y, insert_of y = None) r.2
         ∧ r.1.1.1 = s
         ∧ r.1.1.2 = Rejected (Some message)).
Proof.
  split; intros.
  - by eapply createBlog_upload_failure.
  - by eapply createComment_upload_failure.
Qed.

Lemma create_aborts_when_upload_fails_witness :
  let file := {| name := "cat.png"; bytes := [] |} in
  let user := Some {| Auth.id := "u1"; Auth.email := "u1@example.org" |} in
  let rb :=
    BlogSlice.dispatch_createBlog (scripted (Some "quota exceeded") None None None)
      "title" "text" (Some file) user BlogSlice.initialState tt in
  let rc :=
    CommentsSlice.dispatch_createComment
      (scripted (Some "quota exceeded") None None None)
      "p1" "hi" (Some file) user CommentsSlice.initialState tt in
  (rb.1.1.1 = BlogSlice.initialState
   ∧ rb.1.1.2 = Rejected (Some "quota exceeded"))
  ∧ (rc.1.1.1 = CommentsSlice.initialState
     ∧ rc.1.1.2 = Rejected (Some "quota exceeded")).
Proof.
  intros file user rb rc.
  destruct (create_aborts_when_upload_fails
              (scripted (Some "quota exceeded") None None None)
              (scripted (Some "quota exceeded") None None None)
              tt file user) as [Hb Hc].
  split.
  - eapply (Hb "title" "text" BlogSlice.initialState).
    + apply list_elem_of_In. right. left. reflexivity.
    + reflexivity.
  - eapply (Hc "p1" "hi" CommentsSlice.initialState).
    + apply list_elem_of_In. right. right. left. reflexivity.
    + reflexivity.
Defined.

Section UpdateComment.
Import CommentsSlice.
Context {W : Type} (h : handler E W).

(** What the removal branch of [updateComment] does, step by step. *)
Lemma updateComment_removal_run (w : W) i content file oldImagePath user :
  let r := run h (updateComment i content file oldImagePath true user) w in
  Forall (λ x, upload_of x = None) r.2
  ∧ (∀ x patch reply, x ∈ r.2 → update_of x = Some (patch, reply) →
       p_image_path patch = None ∧ p_content patch = content
       ∧ r.1.1 = match Supabase.error reply with
                 | Some message => RejectWithValue message
                 | None => Return (data reply)
                 end
       ∧ ∃ w0, reply = (h _ (TableUpdate "comments" patch ("id", i)) w0).1)
  ∧ ((r.1.1 = RejectWithValue "Not authenticated" ∧ r.2 = [])
     ∨ ∃ x patch reply,
         last r.2 = Some x ∧ x ∈ r.2 ∧ update_of x = Some (patch, reply))
  ∧ (∀ u, user = Some u → truthy (Auth.id u) = true → r.2 ≠ []).
Proof.
  unfold updateComment, tryCatch. rewrite run_bind.
  destruct user as [user|]; simpl.
  2: { split_and!; [constructor|by intros ??? ?%elem_of_nil|by left|done]. }
  destruct (truthy (Auth.id user)) eqn:Hid; simpl.
  2: { split_and!; [constructor|by intros ??? ?%elem_of_nil|by left|].
       intros u [= <-]. congruence. }
  destruct (truthy_opt oldImagePath); simpl.
  - answer h. answer h.
    destruct (h _ (TableUpdate _ _ _) w1) as [reply1 w2] eqn:Hreply; simpl.
    assert (reply1 = (h _ (TableUpdate "comments"
              {| p_content := content; p_image_path := None;
                 p_updated_at := reply0 |} ("id", i)) w1).1) as Hr
      by by rewrite Hreply.
    destruct (Supabase.error reply1) eqn:Herr; simpl.
    all: split_and!; [by repeat constructor| | |done].
    all: try (right; eexists _, _, _; split_and!; [done| |done];
              apply list_elem_of_In; simpl; tauto).
    all: intros x patch rep Hx Hup; pick_exchange Hx; simplify_eq/=.
    all: rewrite Herr; split_and!; [done..|]; by exists w1.
  - answer h.
    destruct (h _ (TableUpdate _ _ _) w0) as [reply0 w1] eqn:Hreply; simpl.
    assert (reply0 = (h _ (TableUpdate "comments"
              {| p_content := content; p_image_path := None;
                 p_updated_at := reply |} ("id", i)) w0).1) as Hr
      by by rewrite Hreply.
    destruct (Supabase.error reply0) eqn:Herr; simpl.
    all: split_and!; [by repeat constructor| | |done].
    all: try (right; eexists _, _, _; split_and!; [done| |done];
              apply list_elem_of_In; simpl; tauto).
    all: intros x patch rep Hx Hup; pick_exchange Hx; simplify_eq/=.
    all: rewrite Herr; split_and!; [done..|]; by exists w0.
Qed.

Lemma updateComment_fulfilled_present (s : CommentState) (row : Comment) :
  (∃ c, c ∈ comments s ∧ id c = id row) →
  ∃ n : nat,
    comments (reducer s (updateComment_fulfilled (Some row))) !! n = Some row.
Proof.
  intros (c & Hin & Hid). simpl. unfold findIndex.
  destruct (list_find_elem_of (λ c', id c' = id row) (comments s) c Hin Hid)
    as [[n x] Hfind].
  rewrite Hfind. apply list_find_Some in Hfind as (Hn & _ & _).
  rewrite decide_True by lia. simpl. rewrite Nat2Z.id.
  exists n. apply list_lookup_insert_eq. by eapply lookup_lt_Some.
Qed.
End UpdateComment.

(** C6.  When [updateComment] is asked to remove the image and is given a
    new file as well, removal wins: no upload is attempted, the update
    written to the backend sets [image_path] to null, and, the backend
    answering with the row as written, the comment that reaches the cache has
    no image. *)
Theorem updateComment_removal_takes_precedence
    {W : Type} (h : handler CommentsSlice.E W) (w : W)
    (i content : string) (file : File) (oldImagePath : option string)
    (user : option Auth.User) (s : CommentsSlice.CommentState) :
  let r :=
    CommentsSlice.dispatch_updateComment h i content (Some file) oldImagePath
      true user s w in
  let s' := r.1.1.1 in
  let out := r.1.1.2 in
  let log := r.2 in
  Forall (λ x, upload_of x = None) log
  ∧ (∀ x patch reply, x ∈ log → update_of x = Some (patch, reply) →
       CommentsSlice.p_image_path patch = None)
  ∧ (∀ u, user = Some u → truthy (Auth.id u) = true →
       ∃ x patch reply,
         last log = Some x ∧ update_of x = Some (patch, reply)
         ∧ CommentsSlice.p_image_path patch = None
         ∧ CommentsSlice.p_content patch = content)
  ∧ (returns_written_image h →
     ∀ row, out = Fulfilled (Some row) →
       CommentsSlice.image_path row = None
       ∧ s' = CommentsSlice.reducer s
                (CommentsSlice.updateComment_fulfilled (Some row))
       ∧ ((∃ c, c ∈ CommentsSlice.comments s
                ∧ CommentsSlice.id c = CommentsSlice.id row) →
          ∃ n : nat, CommentsSlice.comments s' !! n = Some row)).
Proof.
  unfold CommentsSlice.dispatch_updateComment, CommentsSlice.dispatch.
  pose proof (updateComment_removal_run h w i content (Some file)
                oldImagePath user) as Hrun.
  destruct (run h _ w) as [[c w1] log]. simpl in Hrun.
  destruct Hrun as (Hno & Hpatch & Hshape & Hauth). simpl.
  split_and!; [done| | |].
  - intros x patch reply Hx Hup. by destruct (Hpatch x patch reply Hx Hup).
  - intros u Hu Hid.
    destruct Hshape as [[_ ->]|(x & patch & reply & Hlast & Hx & Hup)].
    { by destruct (Hauth u Hu Hid). }
    destruct (Hpatch x patch reply Hx Hup) as (? & ? & _).
    by exists x, patch, reply.
  - intros Hcontract row Hout.
    destruct Hshape as [[-> _]|(x & patch & reply & Hlast & Hx & Hup)]; [done|].
    destruct (Hpatch x patch reply Hx Hup) as (Himg & _ & -> & w0 & Hreply).
    rewrite Hout. destruct (error reply) eqn:Herr; [done|].
    simpl in Hout. injection Hout as Hdata.
    split_and!; [|done|].
    + rewrite <- Himg. eapply Hcontract. by rewrite <- Hreply.
    + apply updateComment_fulfilled_present.
Qed.

Lemma updateComment_removal_takes_precedence_witness :
  let c1 :=
    {| CommentsSlice.id := "c1"; CommentsSlice.content := "hi";
       CommentsSlice.post_id := "p1"; CommentsSlice.user_id := "u1";
       CommentsSlice.email := "u1@example.org";
       CommentsSlice.image_path := Some "u1/old.png";
       CommentsSlice.created_at := "2024-01-01T00:00:00.000Z";
       CommentsSlice.updated_at := "2024-01-01T00:00:00.000Z" |} in
  let s :=
    {| CommentsSlice.comments := [c1];
       CommentsSlice.commentCounts := {["p1" := 1]};
       CommentsSlice.status := succeeded; CommentsSlice.error := None |} in
  let r :=
    CommentsSlice.dispatch_updateComment echoing "c1" "edited"
      (Some {| name := "new.png"; bytes := [] |}) (Some "u1/old.png") true
      (Some {| Auth.id := "u1"; Auth.email := "u1@example.org" |}) s tt in
  ∃ row, CommentsSlice.comments r.1.1.1 = [row]
         ∧ CommentsSlice.image_path row = None.
Proof.
  intros c1 s r. eexists. split; [reflexivity|].
  destruct (updateComment_removal_takes_precedence echoing tt "c1" "edited"
              {| name := "new.png"; bytes := [] |} (Some "u1/old.png")
              (Some {| Auth.id := "u1"; Auth.email := "u1@example.org" |}) s)
    as (_ & _ & _ & Hcache).
  eapply Hcache.
  - intros table patch eq [] row. simpl. by intros [= <-].
  - reflexivity.
Defined.

(** * Mutations and the request status *)

Section Rejections.
Context {W : Type}.

(** A thunk whose [pending] and [rejected] actions have no case in the
    reducer leaves the state alone when it is rejected. *)
Lemma blog_dispatch_rejected {A} (h : handler BlogSlice.E W)
    pending (fulfilled : A → BlogSlice.Action) rejected creator s w payload :
  (∀ s0, BlogSlice.reducer s0 pending = s0) →
  (∀ s0 p, BlogSlice.reducer s0 (rejected p) = s0) →
  (BlogSlice.dispatch h pending fulfilled rejected creator s w).1.1.2
  = Rejected payload →
  (BlogSlice.dispatch h pending fulfilled rejected creator s w).1.1.1 = s.
Proof.
  intros Hpending Hrejected. unfold BlogSlice.dispatch.
  destruct (run h creator w) as [[c w'] log]. simpl.
  intros ->. by rewrite Hrejected, Hpending.
Qed.

Lemma comment_dispatch_rejected {A} (h : handler CommentsSlice.E W)
    pending (fulfilled : A → CommentsSlice.Action) rejected creator s w
    payload :
  (∀ s0, CommentsSlice.reducer s0 pending = s0) →
  (∀ s0 p, CommentsSlice.reducer s0 (rejected p) = s0) →
  (CommentsSlice.dispatch h pending fulfilled rejected creator s w).1.1.2
  = Rejected payload →
  (CommentsSlice.dispatch h pending fulfilled rejected creator s w).1.1.1 = s.
Proof.
  intros Hpending Hrejected. unfold CommentsSlice.dispatch.
  destruct (run h creator w) as [[c w'] log]. simpl.
  intros ->. by rewrite Hrejected, Hpending.
Qed.
End Rejections.

Lemma blog_mutation_keeps_status s a :
  blog_mutation a = true →
  BlogSlice.status (BlogSlice.reducer s a) = BlogSlice.status s
  ∧ BlogSlice.error (BlogSlice.reducer s a) = BlogSlice.error s.
Proof.
  destruct a as [| | | |[b|]| |  |[b|]| | | |]; try done; simpl.
  by case_decide.
Qed.

Lemma comment_mutation_keeps_status s a :
  comment_mutation a = true →
  CommentsSlice.status (CommentsSlice.reducer s a) = CommentsSlice.status s
  ∧ CommentsSlice.error (CommentsSlice.reducer s a) = CommentsSlice.error s.
Proof.
  destruct a as [| | | | | | | |[c|]| | |[c|]| | |i|]; try done; simpl.
  - by case_decide.
  - by destruct (CommentsSlice.find i _).
Qed.

(** C9, as amended.  No action of a mutation, on either cache, changes
    [status], and none changes [error] either.  A failed mutation changes
    nothing at all: its rejected action has no case in the reducers, so the
    collection, the status and the error field stay as they were, and the
    failure message is carried by the thunk's rejected result only. *)
Theorem failed_mutation_leaves_cache_unchanged
    {W : Type} (hb : handler BlogSlice.E W) (hc : handler CommentsSlice.E W)
    (w : W) (sb : BlogSlice.BlogState) (sc : CommentsSlice.CommentState) :
  (∀ a, blog_mutation a = true →
     BlogSlice.status (BlogSlice.reducer sb a) = BlogSlice.status sb
     ∧ BlogSlice.error (BlogSlice.reducer sb a) = BlogSlice.error sb)
  ∧ (∀ a, comment_mutation a = true →
       CommentsSlice.status (CommentsSlice.reducer sc a) = CommentsSlice.status sc
       ∧ CommentsSlice.error (CommentsSlice.reducer sc a) = CommentsSlice.error sc)
  ∧ (∀ a, blog_mutation_failed a = true → BlogSlice.reducer sb a = sb)
  ∧ (∀ a, comment_mutation_failed a = true → CommentsSlice.reducer sc a = sc)
  ∧ (∀ title content file user message,
       let r := BlogSlice.dispatch_createBlog hb title content file user sb w in
       r.1.1.2 = Rejected message → r.1.1.1 = sb)
  ∧ (∀ i title content file oldImagePath user message,
       let r :=
         BlogSlice.dispatch_updateBlog hb i title content file oldImagePath
           user sb w in
       r.1.1.2 = Rejected message → r.1.1.1 = sb)
  ∧ (∀ i message,
       let r := BlogSlice.dispatch_deleteBlog hb i sb w in
       r.1.1.2 = Rejected message → r.1.1.1 = sb)
  ∧ (∀ postId content file user message,
       let r :=
         CommentsSlice.dispatch_createComment hc postId content file user sc w in
       r.1.1.2 = Rejected message → r.1.1.1 = sc)
  ∧ (∀ i content file oldImagePath shouldRemoveImage user message,
       let r :=
         CommentsSlice.dispatch_updateComment hc i content file oldImagePath
           shouldRemoveImage user sc w in
       r.1.1.2 = Rejected message → r.1.1.1 = sc)
  ∧ (∀ i imagePath message,
       let r := CommentsSlice.dispatch_deleteComment hc i imagePath sc w in
       r.1.1.2 = Rejected message → r.1.1.1 = sc).
Proof.
  split_and!.
  - apply blog_mutation_keeps_status.
  - apply comment_mutation_keeps_status.
  - by intros [].
  - by intros [].
  - intros. by eapply blog_dispatch_rejected.
  - intros. by eapply blog_dispatch_rejected.
  - intros. by eapply blog_dispatch_rejected.
  - intros. by eapply comment_dispatch_rejected.
  - intros. by eapply comment_dispatch_rejected.
  - intros. by eapply comment_dispatch_rejected.
Qed.

Lemma failed_mutation_leaves_cache_unchanged_witness :
  let b := {| BlogSlice.id := "p1"; BlogSlice.title := "t";
              BlogSlice.content := "c"; BlogSlice.user_id := "u1";
              BlogSlice.email := "u1@example.org";
              BlogSlice.image_path := None;
              BlogSlice.created_at := "2024-01-01" |} in
  let sb := {| BlogSlice.blogs := [b]; BlogSlice.status := succeeded;
               BlogSlice.error := None |} in
  let r :=
    BlogSlice.dispatch_deleteBlog
      (scripted None None (Some "permission denied") None) "p1" sb tt in
  r.1.1.2 = Rejected (Some "permission denied") ∧ r.1.1.1 = sb.
Proof.
  intros b sb r. split; [reflexivity|].
  destruct (failed_mutation_leaves_cache_unchanged
              (scripted None None (Some "permission denied") None)
              (scripted None None (Some "permission denied") None)
              tt sb CommentsSlice.initialState)
    as (_ & _ & _ & _ & _ & _ & Hdelete & _).
  by apply (Hdelete "p1" (Some "permission denied")).
Defined.

(** C9 as it is stated fails: the error field does not record the message
    of a failed mutation.  A delete that the backend refuses is rejected with
    the backend's message, and the cache's [error] is still null. *)
Lemma failed_mutation_does_not_record_error :
  let b := {| BlogSlice.id := "p1"; BlogSlice.title := "t";
              BlogSlice.content := "c"; BlogSlice.user_id := "u1";
              BlogSlice.email := "u1@example.org";
              BlogSlice.image_path := None;
              BlogSlice.created_at := "2024-01-01" |} in
  let sb := {| BlogSlice.blogs := [b]; BlogSlice.status := succeeded;
               BlogSlice.error := None |} in
  let r :=
    BlogSlice.dispatch_deleteBlog
      (scripted None None (Some "permission denied") None) "p1" sb tt in
  r.1.1.2 = Rejected (Some "permission denied")
  ∧ BlogSlice.error r.1.1.1 = None
  ∧ BlogSlice.error r.1.1.1 ≠ Some "permission denied"
  ∧ CommentsSlice.error
      (CommentsSlice.reducer CommentsSlice.initialState
         (CommentsSlice.createComment_rejected (Some "quota exceeded")))
    = None.
Proof. intros b sb r. by split_and!. Qed.

(** * Further properties of the two caches *)

(** ** Lists searched and updated by a key *)

Section Keyed.
Context {A : Type} (key : A → string).
Implicit Types (l : list A) (i j : string).

Lemma find_cons_other l (a : A) j :
  key a ≠ j →
  snd <$> list_find (λ x, key x = j) (a :: l)
  = snd <$> list_find (λ x, key x = j) l.
Proof.
  intros Hne. simpl. rewrite decide_False by done.
  by destruct (list_find _ l) as [[n x]|].
Qed.

Lemma find_insert_same l (n : nat) (x b : A) i :
  l !! n = Some x → key b = i →
  (∀ (m : nat) y, l !! m = Some y → (m < n)%nat → key y ≠ i) →
  list_find (λ a, key a = i) (<[n := b]> l) = Some (n, b).
Proof.
  intros Hn Hb Hfirst. apply list_find_Some. split_and!; [|done|].
  - apply list_lookup_insert_eq. by eapply lookup_lt_Some.
  - intros m y Hm Hlt. rewrite list_lookup_insert_ne in Hm by lia. eauto.
Qed.

Lemma find_insert_other l : ∀ (n : nat) (x b : A) j,
  l !! n = Some x → key x ≠ j → key b ≠ j →
  list_find (λ a, key a = j) (<[n := b]> l) = list_find (λ a, key a = j) l.
Proof.
  induction l as [|a l IH]; intros n x b j Hn Hx Hb; [done|].
  destruct n as [|n]; simpl in *.
  - injection Hn as ->. by rewrite !decide_False by done.
  - case_decide; [done|]. by erewrite IH.
Qed.

Lemma find_filter_same l i :
  list_find (λ a, key a = i) (filter (λ a, key a ≠ i) l) = None.
Proof.
  apply list_find_None, Forall_forall. intros a Ha%list_elem_of_filter.
  tauto.
Qed.

Lemma find_filter_other l i j :
  j ≠ i →
  snd <$> list_find (λ a, key a = j) (filter (λ a, key a ≠ i) l)
  = snd <$> list_find (λ a, key a = j) l.
Proof.
  intros Hne. induction l as [|a l IH]; [done|].
  rewrite filter_cons. destruct (decide (key a ≠ i)) as [Hkeep|Hdrop].
  - destruct (decide (key a = j)) as [Hj|Hj].
    + simpl. by rewrite !decide_True by done.
    + by rewrite !find_cons_other.
  - rewrite find_cons_other; [done|].
    intros Hj. apply Hdrop. congruence.
Qed.

Lemma keys_insert l (n : nat) (x b : A) :
  l !! n = Some x → key x = key b → key <$> <[n := b]> l = key <$> l.
Proof.
  intros Hn Hkey. rewrite list_fmap_insert. apply list_insert_id.
  by rewrite list_lookup_fmap, Hn, <- Hkey.
Qed.

Lemma filter_fresh l i :
  i ∉ key <$> l → filter (λ a, key a ≠ i) l = l.
Proof.
  intros Hfresh. apply filter_all_pass. intros a Ha Heq.
  apply Hfresh. apply list_elem_of_fmap. exists a. by split.
Qed.

Lemma keys_filter_NoDup l i :
  NoDup (key <$> l) → NoDup (key <$> filter (λ a, key a ≠ i) l).
Proof.
  intros Hnd. eapply sublist_NoDup; [done|].
  apply fmap_sublist, sublist_filter.
Qed.
End Keyed.

(** ** Updates, in both caches *)

Section UpdateShape.

(** The two ways a fulfilled update of a post goes. *)
Lemma updateBlog_fulfilled_cases (s : BlogSlice.BlogState) (b : BlogSlice.Blog) :
  (list_find (λ x, BlogSlice.id x = BlogSlice.id b) (BlogSlice.blogs s) = None
   ∧ BlogSlice.reducer s (BlogSlice.updateBlog_fulfilled (Some b)) = s)
  ∨ ∃ (n : nat) x,
      list_find (λ x, BlogSlice.id x = BlogSlice.id b) (BlogSlice.blogs s)
      = Some (n, x)
      ∧ BlogSlice.reducer s (BlogSlice.updateBlog_fulfilled (Some b))
        = {| BlogSlice.blogs := <[n := b]> (BlogSlice.blogs s);
             BlogSlice.status := BlogSlice.status s;
             BlogSlice.error := BlogSlice.error s |}.
Proof.
  simpl. unfold BlogSlice.findIndex.
  destruct (list_find _ (BlogSlice.blogs s)) as [[n x]|] eqn:Hfind.
  - right. exists n, x. split; [done|].
    rewrite decide_True by lia. by rewrite Nat2Z.id.
  - left. split; [done|]. by rewrite decide_False by (intros H; by apply H).
Qed.

(** The same for a comment. *)
Lemma updateComment_fulfilled_cases
    (s : CommentsSlice.CommentState) (c : CommentsSlice.Comment) :
  (list_find (λ x, CommentsSlice.id x = CommentsSlice.id c)
     (CommentsSlice.comments s) = None
   ∧ CommentsSlice.reducer s (CommentsSlice.updateComment_fulfilled (Some c)) = s)
  ∨ ∃ (n : nat) x,
      list_find (λ x, CommentsSlice.id x = CommentsSlice.id c)
        (CommentsSlice.comments s) = Some (n, x)
      ∧ CommentsSlice.reducer s (CommentsSlice.updateComment_fulfilled (Some c))
        = {| CommentsSlice.comments := <[n := c]> (CommentsSlice.comments s);
             CommentsSlice.commentCounts := CommentsSlice.commentCounts s;
             CommentsSlice.status := CommentsSlice.status s;
             CommentsSlice.error := CommentsSlice.error s |}.
Proof.
  simpl. unfold CommentsSlice.findIndex.
  destruct (list_find _ (CommentsSlice.comments s)) as [[n x]|] eqn:Hfind.
  - right. exists n, x. split; [done|].
    rewrite decide_True by lia. by rewrite Nat2Z.id.
  - left. split; [done|]. by rewrite decide_False by (intros H; by apply H).
Qed.
End UpdateShape.

(** X1.  What [selectBlogById] answers after a mutation has been fulfilled:
    the created post under its id (even when a post with that id was cached
    already); the updated post under its id when that id was cached, and
    still nothing when it was not; nothing under a deleted id.  Under every
    other id the answer is what it was. *)
Theorem selectBlogById_follows_mutations (st st' : Store.RootState) :
  (∀ b,
     Store.blog st'
     = BlogSlice.reducer (Store.blog st) (BlogSlice.createBlog_fulfilled (Some b)) →
     selectBlogById st' (BlogSlice.id b) = Some b
     ∧ ∀ j, j ≠ BlogSlice.id b → selectBlogById st' j = selectBlogById st j)
  ∧ (∀ b,
       Store.blog st'
       = BlogSlice.reducer (Store.blog st)
           (BlogSlice.updateBlog_fulfilled (Some b)) →
       selectBlogById st' (BlogSlice.id b)
       = (λ _, b) <$> selectBlogById st (BlogSlice.id b)
       ∧ ∀ j, j ≠ BlogSlice.id b → selectBlogById st' j = selectBlogById st j)
  ∧ (∀ i,
       Store.blog st'
       = BlogSlice.reducer (Store.blog st) (BlogSlice.deleteBlog_fulfilled i) →
       selectBlogById st' i = None
       ∧ ∀ j, j ≠ i → selectBlogById st' j = selectBlogById st j).
Proof.
  unfold selectBlogById. split_and!.
  - intros b ->. simpl. split.
    + by rewrite decide_True.
    + intros j Hj. by apply (find_cons_other BlogSlice.id).
  - intros b ->.
    destruct (updateBlog_fulfilled_cases (Store.blog st) b)
      as [[Hnone ->]|(n & x & Hfind & ->)].
    + by rewrite Hnone.
    + rewrite Hfind. simpl.
      apply list_find_Some in Hfind as (Hn & Hx & Hfirst). split.
      * by rewrite (find_insert_same BlogSlice.id _ n x b).
      * intros j Hj.
        rewrite (find_insert_other BlogSlice.id _ n x b j); [done..| |];
          congruence.
  - intros i ->. simpl. split.
    + by rewrite (find_filter_same BlogSlice.id).
    + intros j Hj. by apply (find_filter_other BlogSlice.id).
Qed.

Lemma selectBlogById_follows_mutations_witness :
  let mk i t := {| BlogSlice.id := i; BlogSlice.title := t;
                   BlogSlice.content := "c"; BlogSlice.user_id := "u";
                   BlogSlice.email := "e"; BlogSlice.image_path := None;
                   BlogSlice.created_at := "2024-01-01" |} in
  let st blogs :=
    {| Store.auth := {| Store.user := None |};
       Store.blog := {| BlogSlice.blogs := blogs; BlogSlice.status := succeeded;
                        BlogSlice.error := None |};
       Store.comments := CommentsSlice.initialState |} in
  selectBlogById (st [mk "p1" "one"; mk "p2" "new"]) "p2" = Some (mk "p2" "new").
Proof.
  intros mk st.
  destruct (selectBlogById_follows_mutations
              (st [mk "p1" "one"; mk "p2" "old"])
              (st [mk "p1" "one"; mk "p2" "new"])) as (_ & Hupdate & _).
  destruct (Hupdate (mk "p2" "new")) as [Hsame _]; [reflexivity|].
  exact Hsame.
Defined.

Lemma updateBlog_keeps_ids (s : BlogSlice.BlogState) payload :
  blog_ids (BlogSlice.reducer s (BlogSlice.updateBlog_fulfilled payload))
  = blog_ids s.
Proof.
  destruct payload as [b|]; [|done].
  destruct (updateBlog_fulfilled_cases s b)
    as [[_ ->]|(n & x & Hfind & ->)]; [done|].
  apply list_find_Some in Hfind as (Hn & Hx & _).
  unfold blog_ids. simpl. by apply (keys_insert BlogSlice.id _ n x).
Qed.

Lemma updateComment_keeps_ids (s : CommentsSlice.CommentState) payload :
  let s' :=
    CommentsSlice.reducer s (CommentsSlice.updateComment_fulfilled payload) in
  comment_ids s' = comment_ids s
  ∧ CommentsSlice.commentCounts s' = CommentsSlice.commentCounts s.
Proof.
  destruct payload as [c|]; [|done]. intros s'. subst s'.
  destruct (updateComment_fulfilled_cases s c)
    as [[_ ->]|(n & x & Hfind & ->)]; [done|].
  apply list_find_Some in Hfind as (Hn & Hx & _).
  unfold comment_ids. simpl. split; [|done].
  by apply (keys_insert CommentsSlice.id _ n x).
Qed.

(** X2.  A fulfilled update never adds, removes or reorders entries: the
    sequence of cached ids is the same before and after, for posts and for
    comments, whatever the payload; and an update of a comment leaves every
    count alone. *)
Theorem update_fulfilled_keeps_ids :
  (∀ (s : BlogSlice.BlogState) payload,
     blog_ids (BlogSlice.reducer s (BlogSlice.updateBlog_fulfilled payload))
     = blog_ids s)
  ∧ (∀ (s : CommentsSlice.CommentState) payload,
       let s' :=
         CommentsSlice.reducer s (CommentsSlice.updateComment_fulfilled payload) in
       comment_ids s' = comment_ids s
       ∧ CommentsSlice.commentCounts s' = CommentsSlice.commentCounts s).
Proof.
  split.
  - apply updateBlog_keeps_ids.
  - apply updateComment_keeps_ids.
Qed.

(** X3.  Of two fulfilled updates with the same id the later one wins: the
    state is the one the later update alone would have left, in both
    caches. *)
Theorem later_update_wins :
  (∀ (s : BlogSlice.BlogState) a b,
     BlogSlice.id a = BlogSlice.id b →
     BlogSlice.reducer
       (BlogSlice.reducer s (BlogSlice.updateBlog_fulfilled (Some a)))
       (BlogSlice.updateBlog_fulfilled (Some b))
     = BlogSlice.reducer s (BlogSlice.updateBlog_fulfilled (Some b)))
  ∧ (∀ (s : CommentsSlice.CommentState) a b,
       CommentsSlice.id a = CommentsSlice.id b →
       CommentsSlice.reducer
         (CommentsSlice.reducer s (CommentsSlice.updateComment_fulfilled (Some a)))
         (CommentsSlice.updateComment_fulfilled (Some b))
       = CommentsSlice.reducer s (CommentsSlice.updateComment_fulfilled (Some b))).
Proof.
  split.
  - intros s a b Hid.
    destruct (updateBlog_fulfilled_cases s a)
      as [[Hnone ->]|(n & x & Hfind & ->)]; [done|].
    rewrite Hid in Hfind.
    destruct (updateBlog_fulfilled_cases s b)
      as [[Hnone _]|(n' & x' & Hfind' & ->)]; [congruence|].
    rewrite Hfind in Hfind'. injection Hfind' as <- <-.
    apply list_find_Some in Hfind as (Hn & Hx & Hfirst).
    simpl. unfold BlogSlice.findIndex. simpl.
    rewrite (find_insert_same BlogSlice.id _ n x a) by done.
    rewrite decide_True by lia. by rewrite Nat2Z.id, list_insert_insert_eq.
  - intros s a b Hid.
    destruct (updateComment_fulfilled_cases s a)
      as [[Hnone ->]|(n & x & Hfind & ->)]; [done|].
    rewrite Hid in Hfind.
    destruct (updateComment_fulfilled_cases s b)
      as [[Hnone _]|(n' & x' & Hfind' & ->)]; [congruence|].
    rewrite Hfind in Hfind'. injection Hfind' as <- <-.
    apply list_find_Some in Hfind as (Hn & Hx & Hfirst).
    simpl. unfold CommentsSlice.findIndex. simpl.
    rewrite (find_insert_same CommentsSlice.id _ n x a) by done.
    rewrite decide_True by lia. by rewrite Nat2Z.id, list_insert_insert_eq.
Qed.

Lemma later_update_wins_witness :
  let mk t := {| BlogSlice.id := "x"; BlogSlice.title := t;
                 BlogSlice.content := t; BlogSlice.user_id := "u";
                 BlogSlice.email := "e"; BlogSlice.image_path := None;
                 BlogSlice.created_at := "2024-01-01" |} in
  let s := {| BlogSlice.blogs := [mk "old"]; BlogSlice.status := succeeded;
              BlogSlice.error := None |} in
  BlogSlice.blogs
    (BlogSlice.reducer
       (BlogSlice.reducer s (BlogSlice.updateBlog_fulfilled (Some (mk "A"))))
       (BlogSlice.updateBlog_fulfilled (Some (mk "B"))))
  = [mk "B"].
Proof.
  intros mk s. destruct later_update_wins as [Hblog _].
  by rewrite (Hblog s (mk "A") (mk "B")).
Defined.

(** ** One entry per id *)

(** X4.  The caches keep "one entry per id" as long as nothing with a
    cached id is put in: given ids without repetition, every action that adds
    no duplicate leaves ids without repetition.  Updates and deletes never
    need the proviso. *)
Theorem unique_ids_are_kept :
  (∀ (s : BlogSlice.BlogState) a,
     NoDup (blog_ids s) → adds_no_duplicate_post s a →
     NoDup (blog_ids (BlogSlice.reducer s a)))
  ∧ (∀ (s : CommentsSlice.CommentState) a,
       NoDup (comment_ids s) → adds_no_duplicate_comment s a →
       NoDup (comment_ids (CommentsSlice.reducer s a))).
Proof.
  split.
  - intros s a Hnd Hok.
    destruct a as [|[l|]| | |[b|]| | |[b|]| | |i|]; try exact Hnd.
    + exact Hok.
    + constructor.
    + unfold blog_ids. simpl. by apply NoDup_cons.
    + by rewrite updateBlog_keeps_ids.
    + by apply (keys_filter_NoDup BlogSlice.id).
  - intros s a Hnd Hok.
    destruct a as [| |[l|]| | | | | |[c|]| | |[c|]| | |i|]; try exact Hnd.
    + constructor.
    + exact Hok.
    + constructor.
    + unfold comment_ids. simpl. by apply NoDup_cons.
    + by destruct (updateComment_keeps_ids s (Some c)) as [-> _].
    + unfold comment_ids. simpl.
      destruct (CommentsSlice.find i _);
        by apply (keys_filter_NoDup CommentsSlice.id).
Qed.

Lemma unique_ids_are_kept_witness :
  let mk i := {| BlogSlice.id := i; BlogSlice.title := "t";
                 BlogSlice.content := "c"; BlogSlice.user_id := "u";
                 BlogSlice.email := "e"; BlogSlice.image_path := None;
                 BlogSlice.created_at := "2024-01-01" |} in
  let s := {| BlogSlice.blogs := [mk "p1"; mk "p2"];
              BlogSlice.status := succeeded; BlogSlice.error := None |} in
  NoDup (blog_ids
           (BlogSlice.reducer s (BlogSlice.createBlog_fulfilled (Some (mk "p3"))))).
Proof.
  intros mk s. destruct unique_ids_are_kept as [Hblog _].
  apply Hblog; compute_done.
Defined.

(** ** Create and delete undo each other *)

Lemma countOrZero_insert (m : gmap string Z) (P Q : string) (k : Z) :
  CommentsSlice.countOrZero (<[P := k]> m) Q
  = if decide (P = Q) then k else CommentsSlice.countOrZero m Q.
Proof.
  unfold CommentsSlice.countOrZero. rewrite lookup_insert.
  by case_decide.
Qed.

(** X5.  Creating an entry whose id is new to the cache and then deleting
    that id gives back what was there: for posts the very same state; for
    comments the same list, status and error and, the post's count not being
    negative, the same count for every post. *)
Theorem create_then_delete_round_trip :
  (∀ (s : BlogSlice.BlogState) b,
     BlogSlice.id b ∉ blog_ids s →
     BlogSlice.reducer
       (BlogSlice.reducer s (BlogSlice.createBlog_fulfilled (Some b)))
       (BlogSlice.deleteBlog_fulfilled (BlogSlice.id b))
     = s)
  ∧ (∀ (s : CommentsSlice.CommentState) c,
       CommentsSlice.id c ∉ comment_ids s →
       let s'' :=
         CommentsSlice.reducer
           (CommentsSlice.reducer s (CommentsSlice.createComment_fulfilled (Some c)))
           (CommentsSlice.deleteComment_fulfilled (CommentsSlice.id c)) in
       CommentsSlice.comments s'' = CommentsSlice.comments s
       ∧ CommentsSlice.status s'' = CommentsSlice.status s
       ∧ CommentsSlice.error s'' = CommentsSlice.error s
       ∧ (0 ≤ CommentsSlice.countOrZero (CommentsSlice.commentCounts s)
                (CommentsSlice.post_id c) →
          ∀ Q, CommentsSlice.countOrZero (CommentsSlice.commentCounts s'') Q
               = CommentsSlice.countOrZero (CommentsSlice.commentCounts s) Q)).
Proof.
  split.
  - intros [l st e] b Hfresh. simpl. f_equal.
    rewrite filter_cons_False by (intros H; by apply H).
    by apply (filter_fresh BlogSlice.id).
  - intros s c Hfresh s''. subst s''.
    assert (filter (λ c', CommentsSlice.id c' ≠ CommentsSlice.id c)
              (c :: CommentsSlice.comments s) = CommentsSlice.comments s) as Hfilter.
    { rewrite filter_cons_False by (intros H; by apply H).
      by apply (filter_fresh CommentsSlice.id). }
    simpl. unfold CommentsSlice.find. simpl.
    rewrite decide_True by done. simpl.
    split_and!; [done..|].
    intros Hpos Q. rewrite !countOrZero_insert.
    destruct (decide (CommentsSlice.post_id c = Q)) as [<-|Hne]; [|done].
    rewrite decide_True by done. lia.
Qed.

Lemma create_then_delete_round_trip_witness :
  let mk i := {| BlogSlice.id := i; BlogSlice.title := "t";
                 BlogSlice.content := "c"; BlogSlice.user_id := "u";
                 BlogSlice.email := "e"; BlogSlice.image_path := None;
                 BlogSlice.created_at := "2024-01-01" |} in
  let s := {| BlogSlice.blogs := [mk "p1"; mk "p2"];
              BlogSlice.status := succeeded; BlogSlice.error := None |} in
  BlogSlice.reducer
    (BlogSlice.reducer s (BlogSlice.createBlog_fulfilled (Some (mk "p3"))))
    (BlogSlice.deleteBlog_fulfilled "p3")
  = s.
Proof.
  intros mk s. destruct create_then_delete_round_trip as [Hblog _].
  apply (Hblog s (mk "p3")). compute_done.
Defined.

(** ** The counts *)

(** X6.  The count of a post changes only through a fulfilled fetch of the
    counts, a fulfilled create of a comment of that post, or a fulfilled
    delete of a cached comment of that post.  No other action, and no create
    or delete for another post, touches it. *)
Theorem count_changes_only_for_its_post
    (s : CommentsSlice.CommentState) (a : CommentsSlice.Action) (Q : string) :
  CommentsSlice.commentCounts (CommentsSlice.reducer s a) !! Q
  ≠ CommentsSlice.commentCounts s !! Q →
  (∃ payload, a = CommentsSlice.fetchCommentCounts_fulfilled payload)
  ∨ (∃ c, a = CommentsSlice.createComment_fulfilled (Some c)
          ∧ CommentsSlice.post_id c = Q)
  ∨ (∃ i c, a = CommentsSlice.deleteComment_fulfilled i
            ∧ CommentsSlice.find i (CommentsSlice.comments s) = Some c
            ∧ CommentsSlice.post_id c = Q).
Proof.
  destruct a as [| |l| | |m| | |[c|]| | |[c|]| | |i|]; try done.
  - eauto.
  - intros Hne. right. left. exists c. split; [done|].
    simpl in Hne. destruct (decide (CommentsSlice.post_id c = Q)); [done|].
    by rewrite lookup_insert_ne in Hne.
  - intros Hne. destruct (updateComment_keeps_ids s (Some c)) as [_ Heq].
    by rewrite Heq in Hne.
  - intros Hne. right. right. simpl in Hne.
    destruct (CommentsSlice.find i _) as [c|] eqn:Hfind; [|done].
    exists i, c. split_and!; [done..|]. simpl in Hne.
    destruct (decide (CommentsSlice.post_id c = Q)); [done|].
    by rewrite lookup_insert_ne in Hne.
Qed.

Lemma count_changes_only_for_its_post_witness :
  let c :=
    {| CommentsSlice.id := "c1"; CommentsSlice.content := "hi";
       CommentsSlice.post_id := "p1"; CommentsSlice.user_id := "u";
       CommentsSlice.email := "e"; CommentsSlice.image_path := None;
       CommentsSlice.created_at := "2024-01-01";
       CommentsSlice.updated_at := "2024-01-01" |} in
  (∃ payload,
     CommentsSlice.createComment_fulfilled (Some c)
     = CommentsSlice.fetchCommentCounts_fulfilled payload)
  ∨ (∃ c', CommentsSlice.createComment_fulfilled (Some c)
           = CommentsSlice.createComment_fulfilled (Some c')
           ∧ CommentsSlice.post_id c' = "p1")
  ∨ (∃ i c', CommentsSlice.createComment_fulfilled (Some c)
             = CommentsSlice.deleteComment_fulfilled i
             ∧ CommentsSlice.find i
                 (CommentsSlice.comments CommentsSlice.initialState) = Some c'
             ∧ CommentsSlice.post_id c' = "p1").
Proof.
  intros c.
  apply (count_changes_only_for_its_post CommentsSlice.initialState
           (CommentsSlice.createComment_fulfilled (Some c)) "p1").
  vm_compute. discriminate.
Defined.

Lemma counts_nonneg_step (s : CommentsSlice.CommentState) a :
  counts_nonneg (CommentsSlice.commentCounts s) →
  (∀ payload, a = CommentsSlice.fetchCommentCounts_fulfilled payload →
              counts_nonneg payload) →
  counts_nonneg (CommentsSlice.commentCounts (CommentsSlice.reducer s a)).
Proof.
  intros Hs Hpayload.
  assert (∀ P, 0 ≤ CommentsSlice.countOrZero (CommentsSlice.commentCounts s) P)
    as Hzero.
  { intros P. unfold CommentsSlice.countOrZero.
    destruct (CommentsSlice.commentCounts s !! P) as [k|] eqn:Hk; simpl; [|lia].
    by apply (Hs P k). }
  destruct a as [| |l| | |m| | |[c|]| | |[c|]| | |i|]; try exact Hs.
  - by apply Hpayload.
  - simpl. apply map_Forall_insert_2; [|done].
    specialize (Hzero (CommentsSlice.post_id c)). lia.
  - by destruct (updateComment_keeps_ids s (Some c)) as [_ ->].
  - simpl. destruct (CommentsSlice.find i _) as [c|]; [|done].
    simpl. apply map_Forall_insert_2; [lia|done].
Qed.

Lemma counts_from_nonneg log : ∀ counts,
  counts_nonneg counts → answers_nonneg log →
  counts_nonneg (counts_from counts log).
Proof.
  induction log as [|x log IH]; intros counts Hcounts Hlog; [done|].
  inversion Hlog as [|? ? Hx Hrest]; subst. simpl.
  apply IH; [|done].
  destruct (count_of x) as [[p r]|] eqn:Hcount; [|done].
  apply map_Forall_insert_2; [|done].
  destruct (count r) as [k|] eqn:Hk; simpl; [|lia].
  by eapply Hx.
Qed.

(** X7.  Counts never go negative.  From a state without a negative count,
    any sequence of actions leaves none, whatever is created, deleted or
    fetched, as long as the fetched counts are not negative themselves; and
    the counts [fetchCommentCounts] fetches are not negative when the
    backend's answers are not (a null answer counts as 0). *)
Theorem counts_never_go_negative
    (s : CommentsSlice.CommentState) (actions : list CommentsSlice.Action) :
  counts_nonneg (CommentsSlice.commentCounts s) →
  (∀ payload, CommentsSlice.fetchCommentCounts_fulfilled payload ∈ actions →
              counts_nonneg payload) →
  counts_nonneg
    (CommentsSlice.commentCounts (foldl CommentsSlice.reducer s actions))
  ∧ (∀ W (h : handler CommentsSlice.E W) w postIds,
       let r := CommentsSlice.dispatch_fetchCommentCounts h postIds s w in
       answers_nonneg r.2 →
       counts_nonneg (CommentsSlice.commentCounts r.1.1.1)).
Proof.
  intros Hs Hpayloads. split.
  - revert s Hs Hpayloads.
    induction actions as [|a actions IH]; intros s Hs Hpayloads; [done|].
    simpl. apply IH.
    + apply counts_nonneg_step; [done|].
      intros payload ->. apply Hpayloads. by left.
    + intros payload Hin. apply Hpayloads. by right.
  - intros W h w postIds.
    unfold CommentsSlice.dispatch_fetchCommentCounts, CommentsSlice.dispatch,
      CommentsSlice.fetchCommentCounts, tryCatch.
    rewrite run_bind.
    pose proof (fetchCommentCounts_loop_run h postIds ∅ w) as Hloop.
    destruct (run h (CommentsSlice.fetchCommentCounts_loop postIds ∅) w)
      as [[c w1] log].
    simpl in Hloop. destruct Hloop as (_ & _ & Hc).
    destruct c as [m|?|message]; [|done|]; simpl; rewrite app_nil_r;
      intros Hlog; [|done].
    destruct Hc as (_ & _ & ->). by apply counts_from_nonneg.
Qed.

Lemma counts_never_go_negative_witness :
  let c :=
    {| CommentsSlice.id := "c1"; CommentsSlice.content := "hi";
       CommentsSlice.post_id := "p1"; CommentsSlice.user_id := "u";
       CommentsSlice.email := "e"; CommentsSlice.image_path := None;
       CommentsSlice.created_at := "2024-01-01";
       CommentsSlice.updated_at := "2024-01-01" |} in
  counts_nonneg
    (CommentsSlice.commentCounts
       (foldl CommentsSlice.reducer CommentsSlice.initialState
          [CommentsSlice.fetchCommentsByPost_fulfilled (Some [c]);
           CommentsSlice.deleteComment_fulfilled "c1";
           CommentsSlice.deleteComment_fulfilled "c1"])).
Proof.
  intros c.
  apply (counts_never_go_negative CommentsSlice.initialState).
  - apply map_Forall_empty.
  - intros payload Hin. apply list_elem_of_In in Hin. simpl in Hin.
    destruct Hin as [?|[?|[?|[]]]]; discriminate.
Defined.

(** * Further properties of the thunks *)

(** X8.  Without a session user, or with one whose id is empty, the four
    thunks that need a user ask the backend nothing: they are rejected with
    their fixed message, and cache and backend stay as they were. *)
Theorem unauthenticated_thunks_do_nothing
    {W : Type} (hb : handler BlogSlice.E W) (hc : handler CommentsSlice.E W)
    (w : W) (user : option Auth.User) :
  authenticated user = false →
  (∀ title content file s,
     BlogSlice.dispatch_createBlog hb title content file user s w
     = (s, Rejected (Some "Not authenticated or user has no ID"), w, []))
  ∧ (∀ i title content file oldImagePath s,
       BlogSlice.dispatch_updateBlog hb i title content file oldImagePath user s w
       = (s, Rejected (Some "Not authenticated"), w, []))
  ∧ (∀ postId content file s,
       CommentsSlice.dispatch_createComment hc postId content file user s w
       = (s, Rejected (Some "Not authenticated"), w, []))
  ∧ (∀ i content file oldImagePath shouldRemoveImage s,
       CommentsSlice.dispatch_updateComment hc i content file oldImagePath
         shouldRemoveImage user s w
       = (s, Rejected (Some "Not authenticated"), w, [])).
Proof.
  intros Hauth.
  unfold BlogSlice.dispatch_createBlog, BlogSlice.dispatch_updateBlog,
    CommentsSlice.dispatch_createComment, CommentsSlice.dispatch_updateComment,
    BlogSlice.dispatch, CommentsSlice.dispatch, BlogSlice.createBlog,
    BlogSlice.updateBlog, CommentsSlice.createComment,
    CommentsSlice.updateComment.
  destruct user as [u|]; simpl in Hauth; [rewrite Hauth|]; by split_and!.
Qed.

Lemma unauthenticated_thunks_do_nothing_witness :
  CommentsSlice.dispatch_createComment (scripted None None None None)
    "p1" "hi" None (Some {| Auth.id := ""; Auth.email := "a@example.org" |})
    CommentsSlice.initialState tt
  = (CommentsSlice.initialState, Rejected (Some "Not authenticated"), tt, []).
Proof.
  destruct (unauthenticated_thunks_do_nothing
              (scripted (Row := BlogSlice.Blog) None None None None)
              (scripted None None None None) tt
              (Some {| Auth.id := ""; Auth.email := "a@example.org" |}))
    as (_ & _ & Hcreate & _); [reflexivity|].
  apply Hcreate.
Defined.

(** X9.  [updateBlog] with a new file, for a signed-in user: it reads the
    clock, asks for the removal of the old image when there is one, and only
    then uploads the new file under the key derived from the user, the time
    and the file's name.  When the upload fails nothing else is asked: the
    update is rejected with the upload's message and the cache is unchanged,
    the old image's removal having been asked already.  When it succeeds the
    row is updated with the new key as its [image_path]. *)
Theorem updateBlog_replaces_image
    {W : Type} (h : handler BlogSlice.E W) (w : W)
    (i title content : string) (file : File) (oldImagePath : option string)
    (u : Auth.User) (s : BlogSlice.BlogState) :
  truthy (Auth.id u) = true →
  let r :=
    BlogSlice.dispatch_updateBlog h i title content (Some file) oldImagePath
      (Some u) s w in
  ∃ now uploadError,
    let key := postImageKey u now file in
    let storage :=
      asked DateNow now :: old_image_removal oldImagePath
      ++ [asked (StorageUpload "post-files" key file) uploadError] in
    match uploadError with
    | Some message =>
        r.2 = storage ∧ r.1.1.2 = Rejected (Some message) ∧ r.1.1.1 = s
    | None =>
        ∃ reply,
          r.2 = storage
                ++ [asked (TableUpdate "posts"
                             {| BlogSlice.p_title := title;
                                BlogSlice.p_content := content;
                                BlogSlice.p_image_path := Some key |}
                             ("id", i)) reply]
          ∧ r.1.1.2 = match Supabase.error reply with
                      | Some message => Rejected (Some message)
                      | None => Fulfilled (data reply)
                      end
    end.
Proof.
  intros Hauth.
  unfold BlogSlice.dispatch_updateBlog, BlogSlice.dispatch,
    BlogSlice.updateBlog, tryCatch, old_image_removal, postImageKey.
  rewrite run_bind, Hauth. simpl.
  answer h. exists reply. destruct (truthy_opt oldImagePath); simpl.
  - answer h. answer h. exists reply1. destruct reply1 as [message|]; simpl.
    + by destruct reply0.
    + answer h. exists reply1. destruct reply0.
      by destruct (Supabase.error reply1).
  - answer h. exists reply0. destruct reply0 as [message|]; simpl; [done|].
    answer h. exists reply0. by destruct (Supabase.error reply0).
Qed.

Lemma updateBlog_replaces_image_witness :
  let file := {| name := "cat.png"; bytes := [] |} in
  let u := {| Auth.id := "u1"; Auth.email := "u1@example.org" |} in
  let r :=
    BlogSlice.dispatch_updateBlog (scripted (Some "too large") None None None)
      "p1" "t" "c" (Some file) (Some "u1/old.png") (Some u)
      BlogSlice.initialState tt in
  r.2 = [asked DateNow 1700000000000%N;
         asked (StorageRemove "post-files" ["u1/old.png"]) tt;
         asked (StorageUpload "post-files" "u1/1700000000000-cat.png" file)
           (Some "too large")]
  ∧ r.1.1.2 = Rejected (Some "too large").
Proof.
  intros file u r.
  destruct (updateBlog_replaces_image
              (scripted (Some "too large") None None None) tt "p1" "t" "c"
              file (Some "u1/old.png") u BlogSlice.initialState)
    as (now & uploadError & Hcases); [reflexivity|].
  split; reflexivity.
Defined.



(** X11.  [updateComment] with a new file and no request to remove the
    image, for a signed-in user: it derives the key from the user, the time,
    a random suffix and the file's extension, asks for the removal of the old
    image when there is one, uploads, and only after a successful upload
    stamps the time and updates the row with the new key.  A failed upload
    ends the thunk there: rejected with the upload's message, cache
    unchanged. *)
Theorem updateComment_replaces_image
    {W : Type} (h : handler CommentsSlice.E W) (w : W)
    (i content : string) (file : File) (oldImagePath : option string)
    (u : Auth.User) (s : CommentsSlice.CommentState) :
  truthy (Auth.id u) = true →
  let r :=
    CommentsSlice.dispatch_updateComment h i content (Some file) oldImagePath
      false (Some u) s w in
  ∃ now random uploadError,
    let key := CommentsSlice.attachmentPath u now random file in
    let storage :=
      asked DateNow now :: asked MathRandomToString36 random
      :: old_image_removal oldImagePath
      ++ [asked (StorageUpload "post-files" key file) uploadError] in
    match uploadError with
    | Some message =>
        r.2 = storage ∧ r.1.1.2 = Rejected (Some message) ∧ r.1.1.1 = s
    | None =>
        ∃ updated_at reply,
          r.2 = storage
                ++ [asked DateToISOString updated_at;
                    asked (TableUpdate "comments"
                             {| CommentsSlice.p_content := content;
                                CommentsSlice.p_image_path := Some key;
                                CommentsSlice.p_updated_at := updated_at |}
                             ("id", i)) reply]
          ∧ r.1.1.2 = match Supabase.error reply with
                      | Some message => Rejected (Some message)
                      | None => Fulfilled (data reply)
                      end
    end.
Proof.
  intros Hauth.
  unfold CommentsSlice.dispatch_updateComment, CommentsSlice.dispatch,
    CommentsSlice.updateComment, tryCatch, old_image_removal.
  rewrite run_bind, Hauth. simpl.
  answer h. answer h. exists reply, reply0.
  destruct (truthy_opt oldImagePath); simpl.
  - answer h. answer h. exists reply2. destruct reply2 as [message|]; simpl.
    + by destruct reply1.
    + answer h. answer h. exists reply2, reply3. destruct reply1.
      by destruct (Supabase.error reply3).
  - answer h. exists reply1. destruct reply1 as [message|]; simpl; [done|].
    answer h. answer h. exists reply1, reply2.
    by destruct (Supabase.error reply2).
Qed.

Lemma updateComment_replaces_image_witness :
  let file := {| name := "cat.final.png"; bytes := [] |} in
  let u := {| Auth.id := "u1"; Auth.email := "u1@example.org" |} in
  let r :=
    CommentsSlice.dispatch_updateComment echoing "c1" "edited" (Some file)
      None false (Some u) CommentsSlice.initialState tt in
  ∃ row, r.1.1.2 = Fulfilled (Some row)
         ∧ CommentsSlice.image_path row = Some "u1/1700000000000-82mvyr.png".
Proof.
  intros file u r.
  destruct (updateComment_replaces_image echoing tt "c1" "edited" file None u
              CommentsSlice.initialState)
    as (now & random & [message|] & Hcases); [reflexivity|..].
  - destruct Hcases as (_ & Hout & _). discriminate Hout.
  - destruct Hcases as (updated_at & reply & _ & Hout).
    eexists. split; reflexivity.
Defined.

(** X12.  [deleteComment] asks for the removal of the comment's image
    first, when it is given a key, and for the deletion of the row after
    that, whoever the user is.  When the deletion of the row fails the thunk
    is rejected with the backend's message and the cache is unchanged,
    although the image's removal has been asked; when it succeeds no comment
    of the cache has the id any more. *)
Theorem deleteComment_removes_image_first
    {W : Type} (h : handler CommentsSlice.E W) (w : W)
    (i : string) (imagePath : option string) (s : CommentsSlice.CommentState) :
  let r := CommentsSlice.dispatch_deleteComment h i imagePath s w in
  ∃ error,
    r.2 = old_image_removal imagePath
          ++ [asked (TableDelete "comments" ("id", i)) error]
    ∧ match error with
      | Some message => r.1.1.2 = Rejected (Some message) ∧ r.1.1.1 = s
      | None =>
          r.1.1.2 = Fulfilled i
          ∧ CommentsSlice.comments r.1.1.1
            = filter (λ c, CommentsSlice.id c ≠ i) (CommentsSlice.comments s)
          ∧ ∀ c, c ∈ CommentsSlice.comments r.1.1.1 → CommentsSlice.id c ≠ i
      end.
Proof.
  unfold CommentsSlice.dispatch_deleteComment, CommentsSlice.dispatch,
    CommentsSlice.deleteComment, old_image_removal.
  assert (∀ c, c ∈ filter (λ c, CommentsSlice.id c ≠ i) (CommentsSlice.comments s)
               → CommentsSlice.id c ≠ i) as Hgone.
  { intros c Hc%list_elem_of_filter. tauto. }
  destruct (truthy_opt imagePath); simpl.
  - answer h. answer h. exists reply0. destruct reply.
    destruct reply0 as [message|]; simpl; [done|].
    by destruct (CommentsSlice.find i _).
  - answer h. exists reply.
    destruct reply as [message|]; simpl; [done|].
    by destruct (CommentsSlice.find i _).
Qed.

Lemma deleteComment_removes_image_first_witness :
  let c :=
    {| CommentsSlice.id := "c1"; CommentsSlice.content := "hi";
       CommentsSlice.post_id := "p1"; CommentsSlice.user_id := "u1";
       CommentsSlice.email := "u1@example.org";
       CommentsSlice.image_path := Some "u1/pic.png";
       CommentsSlice.created_at := "2024-01-01";
       CommentsSlice.updated_at := "2024-01-01" |} in
  let s :=
    {| CommentsSlice.comments := [c];
       CommentsSlice.commentCounts := {["p1" := 1]};
       CommentsSlice.status := succeeded; CommentsSlice.error := None |} in
  let r :=
    CommentsSlice.dispatch_deleteComment
      (scripted None None (Some "permission denied") None)
      "c1" (Some "u1/pic.png") s tt in
  ∃ error,
    r.2 = [asked (StorageRemove "post-files" ["u1/pic.png"]) tt;
           asked (TableDelete "comments" ("id", "c1")) error]
    ∧ r.1.1.1 = s.
Proof.
  intros c s r.
  destruct (deleteComment_removes_image_first
              (scripted None None (Some "permission denied") None) tt
              "c1" (Some "u1/pic.png") s) as (error & Hlog & Hcases).
  exists error. split; [exact Hlog|].
  destruct error as [message|]; [by destruct Hcases|].
  destruct Hcases as [Hout _]. discriminate Hout.
Defined.

(** X13.  [deleteBlog] makes one call, the deletion of the row: it never
    asks the storage to remove the post's image.  A refusal rejects the thunk
    with the backend's message and leaves the cache alone; after a success no
    cached post has the id. *)
Theorem deleteBlog_deletes_the_row_only
    {W : Type} (h : handler BlogSlice.E W) (w : W)
    (i : string) (s : BlogSlice.BlogState) :
  let r := BlogSlice.dispatch_deleteBlog h i s w in
  ∃ error,
    r.2 = [asked (TableDelete "posts" ("id", i)) error]
    ∧ match error with
      | Some message => r.1.1.2 = Rejected (Some message) ∧ r.1.1.1 = s
      | None =>
          r.1.1.2 = Fulfilled i
          ∧ BlogSlice.blogs r.1.1.1
            = filter (λ b, BlogSlice.id b ≠ i) (BlogSlice.blogs s)
          ∧ ∀ b, b ∈ BlogSlice.blogs r.1.1.1 → BlogSlice.id b ≠ i
      end.
Proof.
  unfold BlogSlice.dispatch_deleteBlog, BlogSlice.dispatch,
    BlogSlice.deleteBlog.
  simpl. answer h. exists reply.
  destruct reply as [message|]; simpl; [done|].
  split_and!; [done..|]. intros b Hb%list_elem_of_filter. tauto.
Qed.

Lemma deleteBlog_deletes_the_row_only_witness :
  let mk i := {| BlogSlice.id := i; BlogSlice.title := "t";
                 BlogSlice.content := "c"; BlogSlice.user_id := "u1";
                 BlogSlice.email := "u1@example.org";
                 BlogSlice.image_path := Some "u1/pic.png";
                 BlogSlice.created_at := "2024-01-01" |} in
  let s := {| BlogSlice.blogs := [mk "p1"; mk "p2"];
              BlogSlice.status := succeeded; BlogSlice.error := None |} in
  let r :=
    BlogSlice.dispatch_deleteBlog (scripted None None None None) "p1" s tt in
  r.2 = [asked (TableDelete "posts" ("id", "p1")) None]
  ∧ ∀ b, b ∈ BlogSlice.blogs r.1.1.1 → BlogSlice.id b ≠ "p1".
Proof.
  intros mk s r.
  destruct (deleteBlog_deletes_the_row_only
              (scripted None None None None) tt "p1" s)
    as (error & Hlog & Hcases).
  split; [reflexivity|].
  destruct error as [message|]; [|by destruct Hcases as (_ & _ & Hgone)].
  destruct Hcases as [Hout _]. discriminate Hout.
Defined.

(** X14.  [createBlog] for a signed-in user.  Without a file it makes one
    call, the insert of a row with the user's id and email and a null
    [image_path].  With a file it reads the clock, uploads under the key
    derived from the user, the time and the file's name and, the upload
    having succeeded, inserts the row with exactly that key.  The thunk
    settles as the insert's reply says, and a fulfilled post is then the
    first of the cache. *)
Theorem createBlog_inserts_the_uploaded_key
    {W : Type} (h : handler BlogSlice.E W) (w : W)
    (title content : string) (file : option File) (u : Auth.User)
    (s : BlogSlice.BlogState) :
  truthy (Auth.id u) = true →
  let r := BlogSlice.dispatch_createBlog h title content file (Some u) s w in
  let row image_path :=
    {| BlogSlice.d_title := title; BlogSlice.d_content := content;
       BlogSlice.d_user_id := Auth.id u; BlogSlice.d_email := Auth.email u;
       BlogSlice.d_image_path := image_path |} in
  let settled reply :=
    r.1.1.2 = match Supabase.error reply with
              | Some message => Rejected (Some message)
              | None => Fulfilled (data reply)
              end
    ∧ (∀ b, r.1.1.2 = Fulfilled (Some b) →
            BlogSlice.blogs r.1.1.1 = b :: BlogSlice.blogs s) in
  match file with
  | None =>
      ∃ reply, r.2 = [asked (TableInsert "posts" [row None]) reply]
               ∧ settled reply
  | Some f =>
      ∃ now uploadError,
        let key := postImageKey u now f in
        let storage :=
          [asked DateNow now;
           asked (StorageUpload "post-files" key f) uploadError] in
        match uploadError with
        | Some message => r.2 = storage ∧ r.1.1.2 = Rejected (Some message)
        | None =>
            ∃ reply,
              r.2 = storage ++ [asked (TableInsert "posts" [row (Some key)]) reply]
              ∧ settled reply
        end
  end.
Proof.
  intros Hauth.
  unfold BlogSlice.dispatch_createBlog, BlogSlice.dispatch,
    BlogSlice.createBlog, postImageKey.
  rewrite Hauth. destruct file as [f|]; simpl.
  - answer h. answer h. exists reply, reply0.
    destruct reply0 as [message|]; simpl; [done|].
    answer h. exists reply0.
    destruct (Supabase.error reply0); simpl; [done|].
    split_and!; [done..|]. by intros b [= ->].
  - answer h. exists reply.
    destruct (Supabase.error reply); simpl; [done|].
    split_and!; [done..|]. by intros b [= ->].
Qed.

Lemma createBlog_inserts_the_uploaded_key_witness :
  let b := {| BlogSlice.id := "p9"; BlogSlice.title := "t";
              BlogSlice.content := "c"; BlogSlice.user_id := "u1";
              BlogSlice.email := "u1@example.org";
              BlogSlice.image_path := None;
              BlogSlice.created_at := "2024-01-01" |} in
  let u := {| Auth.id := "u1"; Auth.email := "u1@example.org" |} in
  let r :=
    BlogSlice.dispatch_createBlog (scripted None None None (Some b))
      "t" "c" None (Some u) BlogSlice.initialState tt in
  BlogSlice.blogs r.1.1.1 = [b].
Proof.
  intros b u r.
  destruct (createBlog_inserts_the_uploaded_key
              (scripted None None None (Some b)) tt "t" "c" None u
              BlogSlice.initialState) as (reply & _ & _ & Hcache);
    [reflexivity|].
  by apply Hcache.
Defined.

(** X15.  [createComment] for a signed-in user.  Without a file it makes
    one call, the insert of a row for the given post with the user's id and
    email and a null [image_path]; with a file it reads the clock and a
    random number, uploads under the key derived from them and, the upload
    having succeeded, inserts the row with exactly that key.  A fulfilled
    comment is then the first of the cache, and the count of the post it
    names is one more than it was, a missing count standing for 0. *)
Theorem createComment_inserts_and_counts
    {W : Type} (h : handler CommentsSlice.E W) (w : W)
    (postId content : string) (file : option File) (u : Auth.User)
    (s : CommentsSlice.CommentState) :
  truthy (Auth.id u) = true →
  let r :=
    CommentsSlice.dispatch_createComment h postId content file (Some u) s w in
  let row image_path :=
    {| CommentsSlice.d_content := content; CommentsSlice.d_post_id := postId;
       CommentsSlice.d_user_id := Auth.id u;
       CommentsSlice.d_email := Auth.email u;
       CommentsSlice.d_image_path := image_path |} in
  let settled reply :=
    r.1.1.2 = match Supabase.error reply with
              | Some message => Rejected (Some message)
              | None => Fulfilled (data reply)
              end
    ∧ (∀ c, r.1.1.2 = Fulfilled (Some c) →
            CommentsSlice.comments r.1.1.1 = c :: CommentsSlice.comments s
            ∧ CommentsSlice.commentCounts r.1.1.1
              = <[CommentsSlice.post_id c :=
                    CommentsSlice.countOrZero (CommentsSlice.commentCounts s)
                      (CommentsSlice.post_id c) + 1]>
                  (CommentsSlice.commentCounts s)) in
  match file with
  | None =>
      ∃ reply, r.2 = [asked (TableInsert "comments" [row None]) reply]
               ∧ settled reply
  | Some f =>
      ∃ now random uploadError,
        let key := CommentsSlice.attachmentPath u now random f in
        let storage :=
          [asked DateNow now; asked MathRandomToString36 random;
           asked (StorageUpload "post-files" key f) uploadError] in
        match uploadError with
        | Some message => r.2 = storage ∧ r.1.1.2 = Rejected (Some message)
        | None =>
            ∃ reply,
              r.2 = storage
                    ++ [asked (TableInsert "comments" [row (Some key)]) reply]
              ∧ settled reply
        end
  end.
Proof.
  intros Hauth.
  unfold CommentsSlice.dispatch_createComment, CommentsSlice.dispatch,
    CommentsSlice.createComment.
  rewrite Hauth. destruct file as [f|]; simpl.
  - answer h. answer h. answer h. exists reply, reply0, reply1.
    destruct reply1 as [message|]; simpl; [done|].
    answer h. exists reply1.
    destruct (Supabase.error reply1); simpl; [done|].
    split_and!; [done..|]. by intros c [= ->].
  - answer h. exists reply.
    destruct (Supabase.error reply); simpl; [done|].
    split_and!; [done..|]. by intros c [= ->].
Qed.

Lemma createComment_inserts_and_counts_witness :
  let c :=
    {| CommentsSlice.id := "c9"; CommentsSlice.content := "hi";
       CommentsSlice.post_id := "p1"; CommentsSlice.user_id := "u1";
       CommentsSlice.email := "u1@example.org";
       CommentsSlice.image_path := None;
       CommentsSlice.created_at := "2024-01-01";
       CommentsSlice.updated_at := "2024-01-01" |} in
  let u := {| Auth.id := "u1"; Auth.email := "u1@example.org" |} in
  let s :=
    {| CommentsSlice.comments := [];
       CommentsSlice.commentCounts := {["p1" := 2]};
       CommentsSlice.status := succeeded; CommentsSlice.error := None |} in
  let r :=
    CommentsSlice.dispatch_createComment (scripted None None None (Some c))
      "p1" "hi" None (Some u) s tt in
  CommentsSlice.comments r.1.1.1 = [c]
  ∧ CommentsSlice.commentCounts r.1.1.1 !! "p1" = Some 3.
Proof.
  intros c u s r.
  destruct (createComment_inserts_and_counts
              (scripted None None None (Some c)) tt "p1" "hi" None u s)
    as (reply & _ & _ & Hcache); [reflexivity|].
  destruct (Hcache c) as [Hcomments Hcounts]; [reflexivity|].
  subst r. split; [exact Hcomments|]. rewrite Hcounts. reflexivity.
Defined.

(** ** The fetched counts *)

Lemma counts_from_dom log : ∀ counts,
  Forall (λ x, is_Some (count_of x)) log →
  dom (counts_from counts log) = dom counts ∪ list_to_set (queried log).
Proof.
  induction log as [|x log IH]; intros counts Hall.
  - simpl. by rewrite union_empty_r_L.
  - inversion Hall as [|? ? [[p r] Hx] Hrest]; subst.
    unfold queried. simpl. rewrite Hx. simpl.
    rewrite IH by done. rewrite dom_insert_L. unfold queried.
    by rewrite (comm_L (∪) {[p]} (dom counts)), <- (assoc_L (∪)).
Qed.

(** X16.  When no count query fails, the fetched counts replace the old
    object as a whole: afterwards exactly the queried posts have a count, so
    a post that was not asked about has none, whatever was recorded for it
    before; and an empty list of posts empties the counts without a call. *)
Theorem fetchCommentCounts_replaces_the_counts
    {W : Type} (h : handler CommentsSlice.E W) (w : W)
    (postIds : list string) (s : CommentsSlice.CommentState) :
  let r := CommentsSlice.dispatch_fetchCommentCounts h postIds s w in
  (Forall (λ x, count_failed x = None) r.2 →
   dom (CommentsSlice.commentCounts r.1.1.1) = list_to_set postIds
   ∧ ∀ Q, Q ∉ postIds → CommentsSlice.commentCounts r.1.1.1 !! Q = None)
  ∧ (postIds = [] →
     r.2 = [] ∧ CommentsSlice.commentCounts r.1.1.1 = ∅).
Proof.
  unfold CommentsSlice.dispatch_fetchCommentCounts, CommentsSlice.dispatch,
    CommentsSlice.fetchCommentCounts, tryCatch.
  rewrite run_bind.
  pose proof (fetchCommentCounts_loop_run h postIds ∅ w) as Hloop.
  split.
  - destruct (run h (CommentsSlice.fetchCommentCounts_loop postIds ∅) w)
      as [[c w1] log].
    simpl in Hloop. destruct Hloop as (Hall & _ & Hc).
    destruct c as [m|?|message]; [|done|]; simpl; rewrite app_nil_r;
      intros Hok.
    + destruct Hc as (Hq & _ & ->).
      assert (dom (counts_from ∅ log) = list_to_set (C := gset string) postIds)
        as Hdom.
      { rewrite counts_from_dom by done.
        by rewrite Hq, dom_empty_L, union_empty_l_L. }
      split; [done|]. intros Q HQ. apply not_elem_of_dom.
      by rewrite Hdom, elem_of_list_to_set.
    + exfalso. destruct Hc as (x & Hlast & Hx).
      rewrite Forall_forall in Hok.
      rewrite (Hok x) in Hx; [done|]. by apply last_Some_elem_of.
  - intros ->. done.
Qed.

Lemma fetchCommentCounts_replaces_the_counts_witness :
  let s :=
    {| CommentsSlice.comments := [];
       CommentsSlice.commentCounts := {["p1" := 3; "p7" := 5]};
       CommentsSlice.status := succeeded; CommentsSlice.error := None |} in
  let r :=
    CommentsSlice.dispatch_fetchCommentCounts (scripted None None None None)
      ["p1"; "p2"] s tt in
  CommentsSlice.commentCounts r.1.1.1 !! "p7" = None.
Proof.
  intros s r.
  destruct (fetchCommentCounts_replaces_the_counts
              (scripted None None None None) tt ["p1"; "p2"] s)
    as [Hok _].
  destruct Hok as [_ Hgone].
  - repeat constructor.
  - apply Hgone. compute_done.
Defined.

(** ** The key of a comment's attachment *)

Lemma append_empty_r (s : string) : s +:+ "" = s.
Proof.
  induction s as [|c s IH]; [done|].
  change (String c (s +:+ "") = String c s). by rewrite IH.
Qed.

Lemma append_String_r (s : string) (c : ascii) (t : string) :
  (s +:+ String c "") +:+ t = s +:+ String c t.
Proof.
  induction s as [|c' s IH]; [done|].
  change (String c' ((s +:+ String c "") +:+ t) = String c' (s +:+ String c t)).
  by rewrite IH.
Qed.

Lemma split_pop_dotless (s : string) : ∀ seg,
  dotless s = true → split_pop seg s = seg +:+ s.
Proof.
  induction s as [|c s IH]; intros seg Hs; simpl in *.
  - by rewrite append_empty_r.
  - apply andb_prop in Hs as [Hc Hs].
    apply negb_true_iff in Hc. rewrite Hc.
    by rewrite IH, append_String_r.
Qed.

Lemma split_pop_after_dot (base : string) : ∀ seg ext,
  split_pop seg (base +:+ "." +:+ ext) = split_pop "" ext.
Proof.
  induction base as [|c base IH]; intros seg ext; [done|].
  change (split_pop seg (String c (base +:+ "." +:+ ext)) = split_pop "" ext).
  simpl. destruct (Ascii.eqb c "."); apply IH.
Qed.

(** X17.  The storage key of a comment's attachment is the user's id, a
    slash, the time, a dash, the random string from its eighth character on,
    a dot and the file's extension, where the extension is what follows the
    last dot of the file's name; a name without a dot is its own extension,
    so that the key then ends with the whole name. *)
Theorem attachmentPath_takes_the_last_extension
    (u : Auth.User) (now : N) (random : string) :
  (∀ base ext bytes,
     dotless ext = true →
     CommentsSlice.attachmentPath u now random
       {| name := base +:+ "." +:+ ext; bytes := bytes |}
     = Auth.id u +:+ "/" +:+ pretty now +:+ "-" +:+ substring_from 7 random
       +:+ "." +:+ ext)
  ∧ (∀ whole bytes,
       dotless whole = true →
       CommentsSlice.attachmentPath u now random
         {| name := whole; bytes := bytes |}
       = Auth.id u +:+ "/" +:+ pretty now +:+ "-" +:+ substring_from 7 random
         +:+ "." +:+ whole).
Proof.
  unfold CommentsSlice.attachmentPath. split.
  - intros base ext bytes Hext. simpl.
    by rewrite split_pop_after_dot, split_pop_dotless.
  - intros whole bytes Hwhole. simpl.
    by rewrite split_pop_dotless.
Qed.

Lemma attachmentPath_takes_the_last_extension_witness :
  CommentsSlice.attachmentPath
    {| Auth.id := "u1"; Auth.email := "u1@example.org" |}
    1700000000000%N "0.4fzyo82mvyr"
    {| name := "holiday.2024" +:+ "." +:+ "jpeg"; bytes := [] |}
  = "u1/1700000000000-82mvyr.jpeg".
Proof.
  destruct (attachmentPath_takes_the_last_extension
              {| Auth.id := "u1"; Auth.email := "u1@example.org" |}
              1700000000000%N "0.4fzyo82mvyr") as [Hext _].
  rewrite (Hext "holiday.2024" "jpeg" []); reflexivity.
Defined.

(** ** Showing the comments of a post *)

(** Nothing but a fetched list or a created comment fills an empty cache. *)
Lemma comments_stay_empty (between : list CommentsSlice.Action) :
  ∀ s : CommentsSlice.CommentState,
    CommentsSlice.comments s = [] →
    Forall (λ a, brings_comments a = false) between →
    CommentsSlice.comments (foldl CommentsSlice.reducer s between) = [].
Proof.
  induction between as [|a between IH]; intros s Hempty Hall; [done|].
  inversion Hall as [|? ? Ha Hrest]; subst. simpl. apply IH; [|done].
  destruct a as [| |l| | |m| | |c| | |[c|]| | |i|]; try done; simpl.
  - unfold CommentsSlice.findIndex. rewrite Hempty. simpl. exact Hempty.
  - rewrite Hempty. done.
Qed.

(** X18.  The effect the comment list runs for a post id.  When it returns
    the cache shows no comments, is loading and has no error, the counts are
    as they were, and one query is under way, for the comments of that post,
    newest first.  The action dispatched when the query is answered replaces
    the comments by the answer on success, whatever was dispatched in
    between, and on failure records the message and keeps the comments as
    they are then.  Until then the cache stays empty as long as no other
    fetch of comments succeeds and no comment is created; the reducers do not
    look at the post a late answer is for. *)
Theorem showing_a_post_clears_then_fetches
    {W : Type} (h : handler CommentsSlice.E W) (w : W)
    (postId : string) (s : CommentsSlice.CommentState) :
  let r := Comments.useEffect_postId h postId s w in
  let s1 := r.1.1.1 in
  let settled := r.1.1.2 in
  ∃ reply,
    r.2 = [asked (TableSelect "comments" (Some ("post_id", postId)) "created_at")
             reply]
    ∧ s1 = {| CommentsSlice.comments := [];
              CommentsSlice.commentCounts := CommentsSlice.commentCounts s;
              CommentsSlice.status := loading;
              CommentsSlice.error := None |}
    ∧ settled
      = match Supabase.error reply with
        | Some message =>
            CommentsSlice.fetchCommentsByPost_rejected (Some message)
        | None => CommentsSlice.fetchCommentsByPost_fulfilled (data reply)
        end
    ∧ ∀ between,
        let s2 := foldl CommentsSlice.reducer s1 between in
        let s3 := CommentsSlice.reducer s2 settled in
        CommentsSlice.commentCounts s3 = CommentsSlice.commentCounts s2
        ∧ match Supabase.error reply with
          | Some message =>
              CommentsSlice.comments s3 = CommentsSlice.comments s2
              ∧ CommentsSlice.status s3 = failed
              ∧ CommentsSlice.error s3 = Some message
          | None =>
              CommentsSlice.comments s3 = default [] (data reply)
              ∧ CommentsSlice.status s3 = succeeded
              ∧ CommentsSlice.error s3 = CommentsSlice.error s2
          end
        ∧ (Forall (λ a, brings_comments a = false) between →
           CommentsSlice.comments s2 = []
           ∧ CommentsSlice.comments s3
             = match Supabase.error reply with
               | Some _ => []
               | None => default [] (data reply)
               end).
Proof.
  unfold Comments.useEffect_postId, CommentsSlice.fetchCommentsByPost.
  simpl. answer h. exists reply.
  destruct (Supabase.error reply) as [message|]; simpl.
  all: split_and!; [done..|]; intros between; split_and!; [done..|].
  all: intros Hquiet; by rewrite (comments_stay_empty between).
Qed.

Lemma showing_a_post_clears_then_fetches_witness :
  let mk i p :=
    {| CommentsSlice.id := i; CommentsSlice.content := "hi";
       CommentsSlice.post_id := p; CommentsSlice.user_id := "u1";
       CommentsSlice.email := "u1@example.org";
       CommentsSlice.image_path := None;
       CommentsSlice.created_at := "2024-01-01";
       CommentsSlice.updated_at := "2024-01-01" |} in
  let s :=
    {| CommentsSlice.comments := [mk "c0" "p0"];
       CommentsSlice.commentCounts := {["p0" := 1]};
       CommentsSlice.status := succeeded; CommentsSlice.error := None |} in
  let r :=
    Comments.useEffect_postId (scripted None None None (Some (mk "c1" "p1")))
      "p1" s tt in
  let between :=
    [CommentsSlice.fetchCommentCounts_fulfilled {["p0" := 1; "p1" := 1]};
     CommentsSlice.deleteComment_fulfilled "c0"] in
  CommentsSlice.comments (foldl CommentsSlice.reducer r.1.1.1 between) = [].
Proof.
  intros mk s r between.
  destruct (showing_a_post_clears_then_fetches
              (scripted None None None (Some (mk "c1" "p1"))) tt "p1" s)
    as (reply & _ & _ & _ & Hlater).
  destruct (Hlater between) as (_ & _ & Hquiet).
  destruct Hquiet as [Hempty _]; [by repeat constructor|].
  exact Hempty.
Defined.

(** ** The count shown for a post *)

(** X19.  What [selectCommentCountByPost] answers after an action of the
    comment slice: one more for the post of a created comment, also when no
    count was recorded for it; one less, but not less than 0, for the post of
    a deleted comment that was cached; the fetched count, or 0 for a post the
    fetch did not cover; and for every other post and every other action what
    it answered before. *)
Theorem selectCommentCountByPost_follows_actions
    (st st' : Store.RootState) (a : CommentsSlice.Action) (Q : string) :
  Store.comments st' = CommentsSlice.reducer (Store.comments st) a →
  selectCommentCountByPost st' Q
  = match a with
    | CommentsSlice.fetchCommentCounts_fulfilled payload =>
        default 0 (payload !! Q)
    | CommentsSlice.createComment_fulfilled (Some c) =>
        if decide (CommentsSlice.post_id c = Q)
        then selectCommentCountByPost st Q + 1
        else selectCommentCountByPost st Q
    | CommentsSlice.deleteComment_fulfilled i =>
        match CommentsSlice.find i (selectAllComments st) with
        | Some c =>
            if decide (CommentsSlice.post_id c = Q)
            then Z.max 0 (selectCommentCountByPost st Q - 1)
            else selectCommentCountByPost st Q
        | None => selectCommentCountByPost st Q
        end
    | _ => selectCommentCountByPost st Q
    end.
Proof.
  unfold selectCommentCountByPost, selectAllComments. intros ->.
  destruct a as [| |l| | |m| | |[c|]| | |[c|]| | |i|]; try done.
  - simpl. rewrite lookup_insert. by case_decide; subst.
  - by destruct (updateComment_keeps_ids (Store.comments st) (Some c))
      as [_ ->].
  - simpl. destruct (CommentsSlice.find i _) as [c|]; [|done].
    simpl. rewrite lookup_insert. by case_decide; subst.
Qed.

Lemma selectCommentCountByPost_follows_actions_witness :
  let c :=
    {| CommentsSlice.id := "c1"; CommentsSlice.content := "hi";
       CommentsSlice.post_id := "p1"; CommentsSlice.user_id := "u";
       CommentsSlice.email := "e"; CommentsSlice.image_path := None;
       CommentsSlice.created_at := "2024-01-01";
       CommentsSlice.updated_at := "2024-01-01" |} in
  let st comments :=
    {| Store.auth := {| Store.user := None |};
       Store.blog := BlogSlice.initialState;
       Store.comments := comments |} in
  selectCommentCountByPost
    (st (CommentsSlice.reducer CommentsSlice.initialState
           (CommentsSlice.createComment_fulfilled (Some c)))) "p1"
  = 1.
Proof.
  intros c st.
  rewrite (selectCommentCountByPost_follows_actions
             (st CommentsSlice.initialState) _
             (CommentsSlice.createComment_fulfilled (Some c)) "p1");
    reflexivity.
Defined.

(** ** The request status *)

Lemma last_omap_snoc {A B} (f : A → option B) (l : list A) (a : A) :
  last (omap f (l ++ [a]))
  = match f a with Some b => Some b | None => last (omap f l) end.
Proof.
  rewrite omap_app. simpl. destruct (f a) as [b|]; simpl.
  - by rewrite last_snoc.
  - by rewrite app_nil_r.
Qed.

(** X20.  After any sequence of actions the status of a cache is the one
    set by the last action that sets a status, and its error the one set by
    the last action that sets an error: the start, success and failure of a
    fetch and, for comments, a clear.  Creates, updates and deletes, whether
    they succeed or fail, and the fetch of the counts never show in either
    field. *)
Theorem status_follows_the_last_fetch :
  (∀ (actions : list BlogSlice.Action) (s : BlogSlice.BlogState),
     let s' := foldl BlogSlice.reducer s actions in
     BlogSlice.status s'
     = default (BlogSlice.status s) (last (omap blog_status_set actions))
     ∧ BlogSlice.error s'
       = default (BlogSlice.error s) (last (omap blog_error_set actions)))
  ∧ (∀ (actions : list CommentsSlice.Action) (s : CommentsSlice.CommentState),
       let s' := foldl CommentsSlice.reducer s actions in
       CommentsSlice.status s'
       = default (CommentsSlice.status s)
           (last (omap comment_status_set actions))
       ∧ CommentsSlice.error s'
         = default (CommentsSlice.error s)
             (last (omap comment_error_set actions))).
Proof.
  split.
  - intros actions s. induction actions as [|a actions IH] using rev_ind;
      [done|].
    simpl in *. rewrite foldl_app, !last_omap_snoc. simpl.
    destruct IH as [IHs IHe].
    destruct a as [|l| | |[b|]| | |[b|]| | |i|]; simpl; try done.
    by case_decide.
  - intros actions s. induction actions as [|a actions IH] using rev_ind;
      [done|].
    simpl in *. rewrite foldl_app, !last_omap_snoc. simpl.
    destruct IH as [IHs IHe].
    destruct a as [| |l| | |m| | |[c|]| | |[c|]| | |i|]; simpl; try done.
    + by case_decide.
    + by destruct (CommentsSlice.find i _).
Qed.
